(** * Arduino demos: LCD word-wrap renderer and Bluetooth command dispatch

    A shallow embedding of the two sketches of the repository:

    - the LCD demo ([setup], [findDeviceAddress], [loop],
      [printStringToLCD], [printWord]);
    - the Bluetooth demo ([updateBluetooth]).

    Every [uint8_t] is a [Z] whose wrap-around is written out with
    [mod 256]; arithmetic that C performs after integer promotion
    (for instance [indexSpace + wordLength - 1]) is plain [Z] arithmetic.
    Calls on the display, the serial ports and [delay] are recorded, in
    program order, in a list of commands. *)

From Stdlib Require Import ZArith List Ascii String Bool Lia.
Import ListNotations.

#[local] Open Scope Z_scope.

(** ** The Arduino [String] class, as far as the sketches use it *)

Module WString.

(** A [String] owns a buffer of [len] characters, followed by a NUL.
    [Stream::readString] appends a received NUL byte like any other
    character, so the buffer may hold NUL bytes before its end; the C
    string functions that the class calls stop at the first of them. *)
Definition t := list ascii.

Definition lit (s : string) : t := list_ascii_of_string s.

Definition NUL : ascii := Ascii.zero.

Definition length (s : t) : Z := Z.of_nat (List.length s).

Definition charAt (s : t) (i : Z) : ascii := nth (Z.to_nat i) s NUL.

(** The C string at the start of a list of characters: the characters
    before the first NUL. *)
Fixpoint c_str (s : t) : t :=
  match s with
  | [] => []
  | c :: rest => if Ascii.eqb c NUL then [] else c :: c_str rest
  end.

(** The [n] characters that [strncpy(dst, src, n)] writes: those of
    [src] up to its first NUL, then NUL up to [n] characters.  The end
    of the list stands for the NUL that follows the buffer. *)
Fixpoint strncpy (src : t) (n : nat) : t :=
  match n with
  | O => []
  | S n' =>
      match src with
      | [] => NUL :: strncpy [] n'
      | c :: rest =>
          if Ascii.eqb c NUL then NUL :: strncpy [] n' else c :: strncpy rest n'
      end
  end.

(** No NUL byte among the characters. *)
Definition nul_free (s : t) : bool :=
  forallb (fun c => negb (Ascii.eqb c NUL)) s.

(** [String::substring(left, right)]: the bounds are swapped when
    [left > right], the result is empty when [left >= len], and [right]
    is clamped to [len].  The result is assigned from the C string at
    [buffer + left], with a NUL put at [buffer[right]] for the time of
    the copy: it ends at [right] or at the first NUL before it. *)
Definition substring (s : t) (left right : Z) : t :=
  let l := if right <? left then right else left in
  let r := if right <? left then left else right in
  if length s <=? l then []
  else
    let r' := if length s <? r then length s else r in
    c_str (firstn (Z.to_nat (r' - l)) (skipn (Z.to_nat l) s)).

(** [String::toCharArray(buf, bufsize)] (that is [getBytes] from index
    0): nothing is written when [bufsize] is 0; otherwise
    [n = min (bufsize - 1) len] characters are written by [strncpy] and
    [buf[n]] is set to NUL.  A C array is a function from indices to
    characters; the cells that are not written keep what they held. *)
Definition toCharArray (s : t) (buf : Z -> ascii) (bufsize : Z) : Z -> ascii :=
  if bufsize =? 0 then buf
  else if length s <=? 0 then (fun i => if i =? 0 then NUL else buf i)
  else
    let n := if length s <? bufsize - 1 then length s else bufsize - 1 in
    fun i => if i <? n then nth (Z.to_nat i) (strncpy s (Z.to_nat n)) NUL
             else if i =? n then NUL
             else buf i.

(** [String::equals], for a NUL-free second string such as the tokens
    of the Bluetooth demo: same length and same characters. *)
Fixpoint equals (a b : t) : bool :=
  match a, b with
  | [], [] => true
  | x :: a', y :: b' => Ascii.eqb x y && equals a' b'
  | _, _ => false
  end.

End WString.

(** ** What the sketches do to the outside world *)

Inductive Cmd : Type :=
| LcdBegin (cols rows : Z)
| LcdSetBacklightPin (pin : Z)
| LcdSetBacklight (value : Z)
| LcdClear
| LcdSetCursor (col row : Z)
| LcdPrint (text : WString.t)
| Delay (ms : Z)
| SerialBegin (baud : Z)
| SerialPrint (text : WString.t)
| SerialPrintAddress (address : Z).

(** ** The LCD demo *)

Module LcdDemo.

Definition LED_ON : Z := 1.
Definition BACKLIGHT_PIN : Z := 3.
Definition BAUD_RATE : Z := 9600.
Definition CHARS_PER_LINE : Z := 16.
Definition NUM_LINES : Z := 2.
Definition DEVICE_NOT_FOUND : Z := -1.
Definition FRAME_DELAY : Z := 3000.

(** Conversion of an [int] to [uint8_t]. *)
Definition to_uint8 (x : Z) : Z := x mod 256.

(** The five [uint8_t] variables of [printStringToLCD], which
    [printWord] receives by reference. *)
Record RenderState : Type := mkState {
  wordLength : Z;
  currRow : Z;
  lastSpace : Z;
  indexSpace : Z;
  offset : Z
}.

Definition uint8_state (st : RenderState) : Prop :=
  0 <= wordLength st < 256 /\ 0 <= currRow st < 256 /\
  0 <= lastSpace st < 256 /\ 0 <= indexSpace st < 256 /\
  0 <= offset st < 256.

(** The fit test of [printWord], computed in [int]. *)
Definition fits (st : RenderState) : bool :=
  indexSpace st + wordLength st - 1 <? CHARS_PER_LINE.

(** [printWord]: the new values of the variables and the commands
    issued. *)
Definition printWord (serialBuffer : WString.t) (st : RenderState)
  : RenderState * list Cmd :=
  let wl := wordLength st in
  let ls := lastSpace st in
  if fits st then
    (mkState 0 (currRow st) (offset st) (to_uint8 (indexSpace st + wl)) (offset st),
     [LcdPrint (WString.substring serialBuffer ls (ls + wl))])
  else
    let paging := if currRow st =? 1 then [Delay FRAME_DELAY; LcdClear] else [] in
    let row := if currRow st =? 1 then 0 else 1 in
    (mkState 0 row (offset st) (to_uint8 (0 + wl)) (offset st),
     paging ++ [LcdSetCursor 0 row;
                LcdPrint (WString.substring serialBuffer (ls + 1) (ls + wl))]).

Definition is_space (c : ascii) : bool := Ascii.eqb c " "%char.

(** One turn of the [for] loop of [printStringToLCD]: the body, then
    [offset++]. *)
Definition scan_step (serialBuffer : WString.t) (stringBuffer : Z -> ascii)
    (st : RenderState) : RenderState * list Cmd :=
  let (st1, out) :=
    if is_space (stringBuffer (offset st)) then printWord serialBuffer st
    else (st, []) in
  (mkState (to_uint8 (wordLength st1 + 1)) (currRow st1) (lastSpace st1)
           (indexSpace st1) (to_uint8 (offset st1 + 1)),
   out).

(** The [for] loop.  [offset < strLength + 1] is an [int] comparison;
    [fuel] bounds the number of turns, and [None] means that the loop
    is still running when the fuel is spent. *)
Fixpoint scan (fuel : nat) (serialBuffer : WString.t) (stringBuffer : Z -> ascii)
    (strLength : Z) (st : RenderState) : option (RenderState * list Cmd) :=
  if offset st <? strLength + 1 then
    match fuel with
    | O => None
    | S fuel' =>
        let (st', out) := scan_step serialBuffer stringBuffer st in
        match scan fuel' serialBuffer stringBuffer strLength st' with
        | Some (st'', out') => Some (st'', out ++ out')
        | None => None
        end
    end
  else Some (st, []).

Definition strLength_of (serialBuffer : WString.t) : Z :=
  to_uint8 (WString.length serialBuffer).

(** The local array [stringBuffer] after [toCharArray]; [stack] is
    what the [strLength + 1] cells of the array hold before the call
    (the array is not initialised). *)
Definition stringBuffer_of (stack : Z -> ascii) (serialBuffer : WString.t)
  : Z -> ascii :=
  WString.toCharArray serialBuffer stack (strLength_of serialBuffer).

Definition initial : RenderState := mkState 0 0 0 0 0.

(** The commands of the loop alone, with the variables it leaves. *)
Definition scan_buffer (fuel : nat) (stack : Z -> ascii) (serialBuffer : WString.t)
  : option (RenderState * list Cmd) :=
  scan fuel serialBuffer (stringBuffer_of stack serialBuffer)
       (strLength_of serialBuffer) initial.

Definition printStringToLCD (fuel : nat) (stack : Z -> ascii)
    (serialBuffer : WString.t) : option (list Cmd) :=
  match scan_buffer fuel stack serialBuffer with
  | Some (st, out) => Some (out ++ snd (printWord serialBuffer st))
  | None => None
  end.

(** [loop], when [Serial.available()] holds and [readString] yields
    [serialBuffer]. *)
Definition loop (fuel : nat) (stack : Z -> ascii) (serialBuffer : WString.t)
  : option (list Cmd) :=
  match printStringToLCD fuel stack serialBuffer with
  | Some out => Some (LcdClear :: LcdSetCursor 0 0 :: out)
  | None => None
  end.

(** The probing loop of [findDeviceAddress].  [endTransmission a] is
    the status that [Wire.endTransmission()] returns for address [a];
    the result is [(addressFound, addressOfDevice)]. *)
Fixpoint probe (fuel : nat) (endTransmission : Z -> Z) (POSSIBLE_ADDRESSES : Z)
    (addressOfDevice : Z) : option (bool * Z) :=
  if addressOfDevice <? POSSIBLE_ADDRESSES then
    match fuel with
    | O => None
    | S fuel' =>
        if endTransmission addressOfDevice =? 0 then Some (true, addressOfDevice)
        else probe fuel' endTransmission POSSIBLE_ADDRESSES
                   (to_uint8 (addressOfDevice + 1))
    end
  else Some (false, addressOfDevice).

(** [findDeviceAddress]: the [uint8_t] it returns and what it prints. *)
Definition findDeviceAddress (fuel : nat) (endTransmission : Z -> Z)
  : option (Z * list Cmd) :=
  match probe fuel endTransmission (to_uint8 128) 1 with
  | Some (true, a) =>
      Some (a, [SerialPrint (WString.lit "Device Address: "); SerialPrintAddress a])
  | Some (false, _) => Some (to_uint8 DEVICE_NOT_FOUND, [])
  | None => None
  end.

(** [setup]: the global [lcd] ([None] is the NULL pointer, [Some a] a
    display object at I2C address [a]) and the commands issued.  The
    test [deviceAddress != DEVICE_NOT_FOUND] compares a promoted
    [uint8_t] with the [int] -1. *)
Definition setup (fuel : nat) (endTransmission : Z -> Z)
  : option (option Z * list Cmd) :=
  match findDeviceAddress fuel endTransmission with
  | Some (deviceAddress, serial) =>
      if negb (deviceAddress =? DEVICE_NOT_FOUND) then
        Some (Some deviceAddress,
              SerialBegin BAUD_RATE :: serial ++
              [LcdBegin CHARS_PER_LINE NUM_LINES;
               LcdSetBacklightPin BACKLIGHT_PIN;
               LcdSetBacklight LED_ON;
               LcdClear;
               LcdSetCursor 0 0])
      else Some (None, SerialBegin BAUD_RATE :: serial)
  | None => None
  end.

End LcdDemo.


(** ** The Bluetooth demo *)

Module BluetoothDemo.

Definition BLUETOOTH_HELP : WString.t := WString.lit "HELP".
Definition WALL_FOLLOW_MODE : WString.t := WString.lit "WFM".
Definition LINE_FOLLOW_MODE : WString.t := WString.lit "LFM".

(** The two sinks of [updateBluetooth]: the LCD manager and the
    Bluetooth serial port. *)
Inductive Out : Type :=
| ManagerPrintStringToLCD (text : WString.t)
| BTprintln (text : WString.t).

Definition quote : ascii := "034"%char.

(** The second line of the answer to an unknown command; the word HELP
    stands between two double quote characters. *)
Definition type_help_hint : WString.t :=
  WString.lit "Type " ++ [quote] ++ WString.lit "HELP" ++ [quote]
  ++ WString.lit " to see available commands".

(** [updateBluetooth]; [incoming] is [None] when [BT.available()] is 0
    and [Some stringBuffer] when [BT.readString()] yields
    [stringBuffer]. *)
Definition updateBluetooth (incoming : option WString.t) : list Out :=
  match incoming with
  | None => []
  | Some stringBuffer =>
      if WString.equals stringBuffer LINE_FOLLOW_MODE then
        [ManagerPrintStringToLCD (WString.lit "Line Follower Mode Enabled");
         BTprintln (WString.lit "Line Follower Mode Enabled")]
      else if WString.equals stringBuffer WALL_FOLLOW_MODE then
        [ManagerPrintStringToLCD (WString.lit "Wall Follower Mode Enabled");
         BTprintln (WString.lit "Wall Follower Mode Enabled")]
      else if WString.equals stringBuffer BLUETOOTH_HELP then
        [BTprintln (WString.lit "Commands:");
         BTprintln (WString.lit "WFM -> Enable Wall Follow Mode");
         BTprintln (WString.lit "LFM -> Enable Line Follow Mode")]
      else
        [BTprintln (WString.lit "Command not recognized.");
         BTprintln type_help_hint]
  end.

End BluetoothDemo.

(** ** Reading a command list *)

Module Display.

(** The runs handed to [lcd->print], in order. *)
Fixpoint writes (cmds : list Cmd) : list WString.t :=
  match cmds with
  | [] => []
  | LcdPrint text :: rest => text :: writes rest
  | _ :: rest => writes rest
  end.

(** A run of characters with the cell at which it starts. *)
Record Placement : Type := mkPlacement {
  row : Z;
  column : Z;
  text : WString.t
}.

(** The cursor of the display, [(column, row)]: [clear] homes it,
    [setCursor] sets it, and printing moves it right by one cell per
    character.  An empty run sends nothing to the display and places
    nothing. *)
Fixpoint placements (cursor : Z * Z) (cmds : list Cmd) : list Placement :=
  match cmds with
  | [] => []
  | LcdClear :: rest => placements (0, 0) rest
  | LcdSetCursor col r :: rest => placements (col, r) rest
  | LcdPrint [] :: rest => placements cursor rest
  | LcdPrint t :: rest =>
      mkPlacement (snd cursor) (fst cursor) t
      :: placements (fst cursor + WString.length t, snd cursor) rest
  | _ :: rest => placements cursor rest
  end.

(** Every [clear] comes directly after a [delay (FRAME_DELAY)];
    [after_delay] tells whether the previous command was that pause. *)
Fixpoint clears_paused (after_delay : bool) (cmds : list Cmd) : bool :=
  match cmds with
  | [] => true
  | LcdClear :: rest => after_delay && clears_paused false rest
  | Delay ms :: rest => clears_paused (ms =? LcdDemo.FRAME_DELAY) rest
  | _ :: rest => clears_paused false rest
  end.

End Display.

(** ** Words, as the specification counts them *)

Module Words.

(** The number of maximal runs of non-space characters; [in_word]
    tells whether the previous character belongs to such a run. *)
Fixpoint count_from (in_word : bool) (s : WString.t) : nat :=
  match s with
  | [] => O
  | c :: rest =>
      if LcdDemo.is_space c then count_from false rest
      else ((if in_word then 0 else 1) + count_from true rest)%nat
  end.

Definition count (s : WString.t) : nat := count_from false s.

End Words.

(** The number of cells of an array holding a space, among the [n]
    cells from index [lo] on. *)
Fixpoint spaces_seen (sb : Z -> ascii) (lo : Z) (n : nat) : nat :=
  match n with
  | O => O
  | S n' =>
      ((if LcdDemo.is_space (sb lo) then 1 else 0) + spaces_seen sb (lo + 1) n')%nat
  end.

(** The number of spaces of a string. *)
Definition count_spaces (s : WString.t) : nat :=
  List.length (filter LcdDemo.is_space s).

(** A character that leaves its cell blank. *)
Definition is_blank (c : ascii) : Prop := c = " "%char.

(** Two contents of the uninitialised array used in the examples. *)
Definition zeros : Z -> ascii := fun _ => WString.NUL.
Definition blanks : Z -> ascii := fun _ => " "%char.

(** ** The two sinks of the Bluetooth demo *)

Module Sinks.

(** What [updateBluetooth] hands to the LCD manager. *)
Fixpoint lcd_texts (outs : list BluetoothDemo.Out) : list WString.t :=
  match outs with
  | [] => []
  | BluetoothDemo.ManagerPrintStringToLCD t :: rest => t :: lcd_texts rest
  | BluetoothDemo.BTprintln _ :: rest => lcd_texts rest
  end.

(** The lines it sends back over Bluetooth. *)
Fixpoint bt_lines (outs : list BluetoothDemo.Out) : list WString.t :=
  match outs with
  | [] => []
  | BluetoothDemo.BTprintln t :: rest => t :: bt_lines rest
  | BluetoothDemo.ManagerPrintStringToLCD _ :: rest => bt_lines rest
  end.

End Sinks.

(** ** Reading a whole pass *)

Module Pass.

(** Where the cursor of the display stands after a command list. *)
Fixpoint cursor_after (cursor : Z * Z) (cmds : list Cmd) : Z * Z :=
  match cmds with
  | [] => cursor
  | LcdClear :: rest => cursor_after (0, 0) rest
  | LcdSetCursor col r :: rest => cursor_after (col, r) rest
  | LcdPrint t :: rest =>
      cursor_after (fst cursor + WString.length t, snd cursor) rest
  | _ :: rest => cursor_after cursor rest
  end.

(** A run that lies within the 16 columns of one of the 2 rows. *)
Definition in_grid (p : Display.Placement) : Prop :=
  0 <= Display.column p /\
  Display.column p + WString.length (Display.text p) <= LcdDemo.CHARS_PER_LINE /\
  0 <= Display.row p < LcdDemo.NUM_LINES.

(** Among any 16 consecutive characters of the buffer there is a
    space: no word has more than 15 characters. *)
Definition short_words (buf : WString.t) : bool :=
  forallb
    (fun i => existsb (fun j => LcdDemo.is_space (nth (i + j) buf WString.NUL))
                      (seq 0 16))
    (seq 0 (List.length buf - 15)).

(** What a reader of the command list of a pass expects next. *)
Inductive Phase : Type :=
| Ready
| NeedClear
| NeedHome
| NeedWrite.

(** One command read on row [row] in phase [ph]: a write is always
    welcome; row 0 is left by [setCursor(0, 1)] and a write; row 1 is
    left by the pause, [clear], [setCursor(0, 0)] and a write.  Any
    other command is refused. *)
Definition page_step (st : Z * Phase) (c : Cmd) : option (Z * Phase) :=
  match st, c with
  | (r, Ready), LcdPrint _ => Some (r, Ready)
  | (r, NeedWrite), LcdPrint _ => Some (r, Ready)
  | (r, Ready), LcdSetCursor col r' =>
      if (r =? 0) && (col =? 0) && (r' =? 1) then Some (1, NeedWrite) else None
  | (r, Ready), Delay ms =>
      if (r =? 1) && (ms =? LcdDemo.FRAME_DELAY) then Some (1, NeedClear) else None
  | (r, NeedClear), LcdClear => Some (r, NeedHome)
  | (r, NeedHome), LcdSetCursor col r' =>
      if (col =? 0) && (r' =? 0) then Some (0, NeedWrite) else None
  | _, _ => None
  end.

Fixpoint paged (st : Z * Phase) (cmds : list Cmd) : option (Z * Phase) :=
  match cmds with
  | [] => Some st
  | c :: rest =>
      match page_step st c with
      | Some st' => paged st' rest
      | None => None
      end
  end.

(** What holds of the variables at the head of every turn of the loop
    over a buffer of [strLength] characters: the word being read
    started at [lastSpace] and reaches up to [offset]. *)
Definition scan_inv (strLength : Z) (st : LcdDemo.RenderState) : Prop :=
  0 <= LcdDemo.lastSpace st <= strLength /\
  0 <= LcdDemo.wordLength st /\
  LcdDemo.lastSpace st + LcdDemo.wordLength st = LcdDemo.offset st /\
  LcdDemo.offset st <= strLength + 1.

(** What holds, besides [scan_inv], of the variables and of the cursor
    of the display at the head of every turn: the cursor stands on row
    [currRow], not to the right of column [indexSpace], and no space
    was seen since the word being read started. *)
Definition grid_inv (sb : Z -> ascii) (strLength : Z) (st : LcdDemo.RenderState)
    (cursor : Z * Z) : Prop :=
  scan_inv strLength st /\
  0 <= fst cursor <= LcdDemo.indexSpace st /\
  snd cursor = LcdDemo.currRow st /\
  (LcdDemo.currRow st = 0 \/ LcdDemo.currRow st = 1) /\
  (LcdDemo.wordLength st = 0 -> LcdDemo.indexSpace st = 0) /\
  (forall i, LcdDemo.lastSpace st < i < LcdDemo.offset st ->
             LcdDemo.is_space (sb i) = false).


End Pass.

(** * Properties *)

(** ** The [String] operations *)

Section WStringFacts.

Lemma equals_refl (a : WString.t) : WString.equals a a = true.
Proof.
  induction a as [|x a IH]; simpl; [reflexivity|].
  now rewrite Ascii.eqb_refl, IH.
Qed.

Lemma equals_eq (a b : WString.t) : WString.equals a b = true <-> a = b.
Proof.
  split.
  - revert b; induction a as [|x a IH]; intros [|y b]; simpl; try discriminate.
    + reflexivity.
    + intros H. apply andb_true_iff in H as [Hxy Hab].
      apply Ascii.eqb_eq in Hxy. apply IH in Hab. congruence.
  - intros ->. apply equals_refl.
Qed.

Lemma equals_neq (a b : WString.t) : a <> b -> WString.equals a b = false.
Proof.
  intros Hne. destruct (WString.equals a b) eqn:E; [|reflexivity].
  apply equals_eq in E. contradiction.
Qed.

Lemma Forall_firstn_skipn {A : Type} (P : A -> Prop) (n : nat) (l : list A) :
  Forall P l -> Forall P (firstn n l) /\ Forall P (skipn n l).
Proof.
  intros H. rewrite <- (firstn_skipn n l) in H.
  now apply Forall_app in H.
Qed.

Lemma c_str_Forall (P : ascii -> Prop) (s : WString.t) :
  Forall P s -> Forall P (WString.c_str s).
Proof.
  induction 1 as [|c s Hc Hs IH]; simpl; [constructor|].
  destruct (Ascii.eqb c WString.NUL); constructor; assumption.
Qed.

Lemma c_str_length (s : WString.t) :
  (List.length (WString.c_str s) <= List.length s)%nat.
Proof.
  induction s as [|c s IH]; simpl; [lia|].
  destruct (Ascii.eqb c WString.NUL); simpl; lia.
Qed.

(** Without a NUL byte the C string is the whole list. *)
Lemma c_str_nul_free (s : WString.t) :
  WString.nul_free s = true -> WString.c_str s = s.
Proof.
  induction s as [|c s IH]; simpl; [reflexivity|].
  intros H. apply andb_true_iff in H as [Hc Hs].
  apply negb_true_iff in Hc. rewrite Hc. now rewrite IH.
Qed.

Lemma nul_free_app (a b : WString.t) :
  WString.nul_free (a ++ b) = WString.nul_free a && WString.nul_free b.
Proof. unfold WString.nul_free. apply forallb_app. Qed.

Lemma nul_free_firstn_skipn (n : nat) (s : WString.t) :
  WString.nul_free s = true ->
  WString.nul_free (firstn n s) = true /\ WString.nul_free (skipn n s) = true.
Proof.
  intros H. rewrite <- (firstn_skipn n s), nul_free_app in H.
  now apply andb_true_iff in H.
Qed.

Lemma strncpy_nil_nth (n i : nat) : nth i (WString.strncpy [] n) WString.NUL = WString.NUL.
Proof.
  revert i. induction n as [|n IH]; intros [|i]; simpl; auto.
Qed.

Lemma strncpy_length (s : WString.t) (n : nat) :
  List.length (WString.strncpy s n) = n.
Proof.
  revert s. induction n as [|n IH]; intros s; simpl; [reflexivity|].
  destruct s as [|c s]; simpl; [now rewrite IH|].
  destruct (Ascii.eqb c WString.NUL); simpl; now rewrite IH.
Qed.

(** What [strncpy] writes, up to its [n] characters, is the C string
    followed by NUL. *)
Lemma strncpy_nth (s : WString.t) (n i : nat) :
  (i < n)%nat ->
  nth i (WString.strncpy s n) WString.NUL = nth i (WString.c_str s) WString.NUL.
Proof.
  revert s i. induction n as [|n IH]; intros s i Hi; [lia|].
  destruct s as [|c s]; simpl.
  - destruct i; [reflexivity|]. apply strncpy_nil_nth.
  - destruct (Ascii.eqb c WString.NUL).
    + destruct i; [reflexivity|]. apply strncpy_nil_nth.
    + destruct i; [reflexivity|]. simpl. apply IH. lia.
Qed.

(** [strncpy] reads the first [n] characters only. *)
Lemma strncpy_firstn (s : WString.t) (n : nat) :
  WString.strncpy (firstn n s) n = WString.strncpy s n.
Proof.
  revert s. induction n as [|n IH]; intros s; [reflexivity|].
  destruct s as [|c s]; simpl; [reflexivity|].
  destruct (Ascii.eqb c WString.NUL); [reflexivity|]. now rewrite IH.
Qed.

Lemma strncpy_app_prefix (b rest : WString.t) :
  WString.strncpy (b ++ rest) (List.length b) = WString.strncpy b (List.length b).
Proof.
  rewrite <- (strncpy_firstn (b ++ rest)).
  now rewrite firstn_app, Nat.sub_diag, firstn_all, app_nil_r.
Qed.

(** A slice holds characters of the buffer only. *)
Lemma substring_Forall (P : ascii -> Prop) (s : WString.t) (l r : Z) :
  Forall P s -> Forall P (WString.substring s l r).
Proof.
  intros H. unfold WString.substring.
  destruct (WString.length s <=? _); [constructor|].
  apply c_str_Forall, Forall_firstn_skipn, Forall_firstn_skipn, H.
Qed.

(** An empty range gives the empty run. *)
Lemma substring_same (s : WString.t) (l : Z) : WString.substring s l l = [].
Proof.
  unfold WString.substring. rewrite Z.ltb_irrefl.
  destruct (WString.length s <=? l) eqn:E; [reflexivity|].
  apply Z.leb_gt in E.
  destruct (WString.length s <? l) eqn:E'; [apply Z.ltb_lt in E'; lia|].
  now rewrite Z.sub_diag.
Qed.

(** A range that ends before the last character does not see it. *)
Lemma substring_app_last (b : WString.t) (c c' : ascii) (l r : Z) :
  0 <= l -> 0 <= r -> l <= WString.length b -> r <= WString.length b ->
  WString.substring (b ++ [c]) l r = WString.substring (b ++ [c']) l r.
Proof.
  intros Hl Hr Hlb Hrb. unfold WString.substring, WString.length in *.
  rewrite !length_app. simpl List.length.
  set (lo := if r <? l then r else l).
  set (hi := if r <? l then l else r).
  assert (0 <= lo <= Z.of_nat (List.length b)) by (subst lo; destruct (r <? l); lia).
  assert (0 <= hi <= Z.of_nat (List.length b)) by (subst hi; destruct (r <? l); lia).
  destruct (Z.of_nat (List.length b + 1) <=? lo) eqn:E; [reflexivity|].
  destruct (Z.of_nat (List.length b + 1) <? hi) eqn:E'; [apply Z.ltb_lt in E'; lia|].
  rewrite !skipn_app, !firstn_app.
  replace (Z.to_nat lo - List.length b)%nat with O by lia.
  simpl skipn.
  replace (Z.to_nat (hi - lo) - List.length (skipn (Z.to_nat lo) b))%nat with O;
    [reflexivity|].
  rewrite length_skipn. lia.
Qed.

End WStringFacts.

(** ** One flush and one turn of the loop *)

Section RendererFacts.

Import LcdDemo.

Variable serialBuffer : WString.t.

Lemma to_uint8_small (x : Z) : 0 <= x < 256 -> to_uint8 x = x.
Proof. intros H. unfold to_uint8. now apply Z.mod_small. Qed.

Lemma to_uint8_range (x : Z) : 0 <= to_uint8 x < 256.
Proof. unfold to_uint8. apply Z.mod_pos_bound. lia. Qed.

Lemma fits_iff (st : RenderState) :
  fits st = true <-> indexSpace st + wordLength st <= CHARS_PER_LINE.
Proof. unfold fits, CHARS_PER_LINE. rewrite Z.ltb_lt. lia. Qed.

Lemma writes_app (a b : list Cmd) :
  Display.writes (a ++ b) = Display.writes a ++ Display.writes b.
Proof.
  induction a as [|c a IH]; simpl; [reflexivity|].
  destruct c; simpl; now rewrite ?IH.
Qed.

Lemma printWord_offset (st : RenderState) :
  offset (fst (printWord serialBuffer st)) = offset st.
Proof. unfold printWord. now destruct (fits st). Qed.

Lemma printWord_lastSpace (st : RenderState) :
  lastSpace (fst (printWord serialBuffer st)) = offset st.
Proof. unfold printWord. now destruct (fits st). Qed.

Lemma printWord_wordLength (st : RenderState) :
  wordLength (fst (printWord serialBuffer st)) = 0.
Proof. unfold printWord. now destruct (fits st). Qed.

(** A flush hands exactly one run to the display. *)
Lemma printWord_one_write (st : RenderState) :
  List.length (Display.writes (snd (printWord serialBuffer st))) = 1%nat.
Proof.
  unfold printWord. destruct (fits st); [reflexivity|].
  now destruct (currRow st =? 1).
Qed.

Variable stringBuffer : Z -> ascii.

Lemma scan_step_offset (st : RenderState) :
  offset (fst (scan_step serialBuffer stringBuffer st)) = to_uint8 (offset st + 1).
Proof.
  unfold scan_step.
  destruct (is_space (stringBuffer (offset st))).
  - pose proof (printWord_offset st) as H.
    destruct (printWord serialBuffer st) as [st1 out]. simpl in *. now rewrite H.
  - reflexivity.
Qed.

Lemma scan_step_writes (st : RenderState) :
  List.length (Display.writes (snd (scan_step serialBuffer stringBuffer st))) =
  if is_space (stringBuffer (offset st)) then 1%nat else 0%nat.
Proof.
  unfold scan_step.
  destruct (is_space (stringBuffer (offset st))).
  - pose proof (printWord_one_write st) as H.
    now destruct (printWord serialBuffer st) as [st1 out].
  - reflexivity.
Qed.

(** The loop stops within [strLength + 1 - offset] turns as long as
    [strLength + 1] is a value that [offset] can reach. *)
Lemma scan_total (strLength : Z) (fuel : nat) (st : RenderState) :
  0 <= offset st -> strLength <= 254 ->
  (Z.to_nat (strLength + 1 - offset st) <= fuel)%nat ->
  exists r, scan fuel serialBuffer stringBuffer strLength st = Some r.
Proof.
  intros Hoff Hlen. revert st Hoff.
  induction fuel as [|fuel IH]; intros st Hoff Hfuel; simpl.
  - destruct (offset st <? strLength + 1) eqn:E; [|eauto].
    apply Z.ltb_lt in E. lia.
  - destruct (offset st <? strLength + 1) eqn:E; [|eauto].
    apply Z.ltb_lt in E.
    pose proof (scan_step_offset st) as Hstep.
    destruct (scan_step serialBuffer stringBuffer st) as [st1 out1].
    simpl in Hstep. rewrite to_uint8_small in Hstep by lia.
    destruct (IH st1) as [[st2 out2] Hr]; [lia | lia |].
    rewrite Hr. eauto.
Qed.

(** With [strLength = 255] the bound [strLength + 1] is out of the
    reach of a [uint8_t]: the loop never stops. *)
Lemma scan_diverges (fuel : nat) (st : RenderState) :
  0 <= offset st < 256 ->
  scan fuel serialBuffer stringBuffer 255 st = None.
Proof.
  revert st. induction fuel as [|fuel IH]; intros st Hoff; cbn [scan].
  - destruct (offset st <? 255 + 1) eqn:E; [reflexivity|].
    apply Z.ltb_ge in E. lia.
  - destruct (offset st <? 255 + 1) eqn:E; [|apply Z.ltb_ge in E; lia].
    pose proof (scan_step_offset st) as Hstep.
    destruct (scan_step serialBuffer stringBuffer st) as [st1 out1].
    simpl in Hstep.
    rewrite (IH st1); [reflexivity|].
    rewrite Hstep. apply to_uint8_range.
Qed.

(** More fuel does not change a result. *)
Lemma scan_fuel_mono (strLength : Z) (fuel fuel' : nat) (st : RenderState) r :
  scan fuel serialBuffer stringBuffer strLength st = Some r ->
  (fuel <= fuel')%nat ->
  scan fuel' serialBuffer stringBuffer strLength st = Some r.
Proof.
  revert fuel' st r.
  induction fuel as [|fuel IH]; intros fuel' st r; simpl.
  - destruct (offset st <? strLength + 1) eqn:E; [discriminate|].
    intros H _. destruct fuel'; simpl; now rewrite E.
  - destruct (offset st <? strLength + 1) eqn:E.
    + intros H Hle. destruct fuel' as [|fuel']; [lia|]. simpl. rewrite E.
      destruct (scan_step serialBuffer stringBuffer st) as [st1 out1].
      destruct (scan fuel serialBuffer stringBuffer strLength st1)
        as [[st2 out2]|] eqn:Hr; [|discriminate].
      rewrite (IH fuel' st1 _ Hr) by lia. exact H.
    + intros H _. destruct fuel'; simpl; now rewrite E.
Qed.

(** The loop flushes once per space it sees. *)
Lemma scan_writes (strLength : Z) (fuel : nat) (st st' : RenderState) out :
  0 <= offset st -> strLength <= 254 ->
  scan fuel serialBuffer stringBuffer strLength st = Some (st', out) ->
  List.length (Display.writes out) =
  spaces_seen stringBuffer (offset st) (Z.to_nat (strLength + 1 - offset st)).
Proof.
  intros Hoff Hlen. revert st st' out Hoff.
  induction fuel as [|fuel IH]; intros st st' out Hoff; simpl.
  - destruct (offset st <? strLength + 1) eqn:E; [discriminate|].
    apply Z.ltb_ge in E. intros [= <- <-].
    now replace (Z.to_nat (strLength + 1 - offset st)) with O by lia.
  - destruct (offset st <? strLength + 1) eqn:E.
    + apply Z.ltb_lt in E.
      pose proof (scan_step_offset st) as Hstep.
      pose proof (scan_step_writes st) as Hw.
      destruct (scan_step serialBuffer stringBuffer st) as [st1 out1].
      simpl in Hstep, Hw. rewrite to_uint8_small in Hstep by lia.
      destruct (scan fuel serialBuffer stringBuffer strLength st1)
        as [[st2 out2]|] eqn:Hr; [|discriminate].
      intros [= <- <-].
      apply IH in Hr; [|lia].
      rewrite writes_app, length_app, Hw, Hr, Hstep.
      replace (Z.to_nat (strLength + 1 - offset st))
        with (S (Z.to_nat (strLength + 1 - (offset st + 1)))) by lia.
      reflexivity.
    + apply Z.ltb_ge in E. intros [= <- <-].
      now replace (Z.to_nat (strLength + 1 - offset st)) with O by lia.
Qed.

End RendererFacts.

(** ** The array that the loop reads *)

Section ArrayFacts.

Import LcdDemo.

Lemma strLength_of_range (buf : WString.t) : 0 <= strLength_of buf < 256.
Proof. apply to_uint8_range. Qed.

Lemma strLength_of_short (buf : WString.t) :
  (List.length buf < 256)%nat -> strLength_of buf = Z.of_nat (List.length buf).
Proof.
  intros H. unfold strLength_of, WString.length. apply to_uint8_small. lia.
Qed.

Lemma strLength_le_length (buf : WString.t) :
  strLength_of buf <= WString.length buf.
Proof.
  unfold strLength_of, to_uint8, WString.length.
  apply Z.mod_le; lia.
Qed.

(** The cell at index [strLength] is never written by [toCharArray]. *)
Lemma stringBuffer_at_strLength (stack : Z -> ascii) (buf : WString.t) :
  stringBuffer_of stack buf (strLength_of buf) = stack (strLength_of buf).
Proof.
  unfold stringBuffer_of, WString.toCharArray.
  pose proof (strLength_le_length buf) as Hle.
  destruct (strLength_of buf =? 0) eqn:E0; [reflexivity|].
  apply Z.eqb_neq in E0. pose proof (strLength_of_range buf) as Hr.
  destruct (WString.length buf <=? 0) eqn:El; [apply Z.leb_le in El; lia|].
  destruct (WString.length buf <? strLength_of buf - 1) eqn:En;
    [apply Z.ltb_lt in En; lia|].
  destruct (strLength_of buf <? strLength_of buf - 1) eqn:E1;
    [apply Z.ltb_lt in E1; lia|].
  destruct (strLength_of buf =? strLength_of buf - 1) eqn:E2;
    [apply Z.eqb_eq in E2; lia|].
  reflexivity.
Qed.

(** Below index [strLength] the array does not depend on what the stack
    held. *)
Lemma stringBuffer_below_strLength (stack stack' : Z -> ascii) (buf : WString.t) (i : Z) :
  0 <= i < strLength_of buf ->
  stringBuffer_of stack buf i = stringBuffer_of stack' buf i.
Proof.
  intros Hi. unfold stringBuffer_of, WString.toCharArray.
  pose proof (strLength_le_length buf) as Hle.
  destruct (strLength_of buf =? 0) eqn:E0; [apply Z.eqb_eq in E0; lia|].
  destruct (WString.length buf <=? 0) eqn:El; [apply Z.leb_le in El; lia|].
  destruct (WString.length buf <? strLength_of buf - 1) eqn:En;
    [apply Z.ltb_lt in En; lia|].
  destruct (i <? strLength_of buf - 1) eqn:E1; [reflexivity|].
  apply Z.ltb_ge in E1.
  destruct (i =? strLength_of buf - 1) eqn:E2; [reflexivity|].
  apply Z.eqb_neq in E2. lia.
Qed.

(** The last cell written holds the terminator. *)
Lemma stringBuffer_terminator (stack : Z -> ascii) (buf : WString.t) :
  strLength_of buf <> 0 ->
  stringBuffer_of stack buf (strLength_of buf - 1) = WString.NUL.
Proof.
  intros Hn. unfold stringBuffer_of, WString.toCharArray.
  pose proof (strLength_le_length buf) as Hle.
  pose proof (strLength_of_range buf) as Hr.
  destruct (strLength_of buf =? 0) eqn:E0; [apply Z.eqb_eq in E0; lia|].
  destruct (WString.length buf <=? 0) eqn:El; [apply Z.leb_le in El; lia|].
  destruct (WString.length buf <? strLength_of buf - 1) eqn:En;
    [apply Z.ltb_lt in En; lia|].
  rewrite Z.ltb_irrefl, Z.eqb_refl. reflexivity.
Qed.

(** The cells before the terminator hold what [strncpy] wrote. *)
Lemma stringBuffer_strncpy (stack : Z -> ascii) (buf : WString.t) (i : Z) :
  0 <= i < strLength_of buf - 1 ->
  stringBuffer_of stack buf i =
  nth (Z.to_nat i) (WString.strncpy buf (Z.to_nat (strLength_of buf - 1))) WString.NUL.
Proof.
  intros Hi. unfold stringBuffer_of, WString.toCharArray.
  pose proof (strLength_le_length buf) as Hle.
  destruct (strLength_of buf =? 0) eqn:E0; [apply Z.eqb_eq in E0; lia|].
  destruct (WString.length buf <=? 0) eqn:El; [apply Z.leb_le in El; lia|].
  destruct (WString.length buf <? strLength_of buf - 1) eqn:En;
    [apply Z.ltb_lt in En; lia|].
  destruct (i <? strLength_of buf - 1) eqn:E1; [reflexivity|].
  apply Z.ltb_ge in E1. lia.
Qed.

(** They hold the characters of the buffer up to its first NUL byte,
    and NUL from there on. *)
Lemma stringBuffer_c_str (stack : Z -> ascii) (buf : WString.t) (i : Z) :
  0 <= i < strLength_of buf - 1 ->
  stringBuffer_of stack buf i = nth (Z.to_nat i) (WString.c_str buf) WString.NUL.
Proof.
  intros Hi. rewrite stringBuffer_strncpy by assumption.
  apply strncpy_nth. lia.
Qed.

(** They hold the characters of a buffer without NUL bytes. *)
Lemma stringBuffer_copied (stack : Z -> ascii) (buf : WString.t) (i : Z) :
  WString.nul_free buf = true ->
  0 <= i < strLength_of buf - 1 ->
  stringBuffer_of stack buf i = WString.charAt buf i.
Proof.
  intros Hnul Hi. rewrite stringBuffer_c_str by assumption.
  now rewrite c_str_nul_free.
Qed.

(** The loop sees its array only through the test for a space, and only
    at the indices from 0 to [strLength]. *)
Lemma scan_ext (buf : WString.t) (sb sb' : Z -> ascii) (strLength : Z)
    (fuel : nat) (st : RenderState) :
  (forall i, 0 <= i <= strLength -> is_space (sb i) = is_space (sb' i)) ->
  0 <= offset st ->
  scan fuel buf sb strLength st = scan fuel buf sb' strLength st.
Proof.
  intros Hsb. revert st.
  induction fuel as [|fuel IH]; intros st Hoff; cbn [scan]; [reflexivity|].
  destruct (offset st <? strLength + 1) eqn:E; [|reflexivity].
  apply Z.ltb_lt in E.
  assert (scan_step buf sb st = scan_step buf sb' st) as Hstep.
  { unfold scan_step. rewrite (Hsb (offset st)) by lia. reflexivity. }
  rewrite <- Hstep.
  pose proof (scan_step_offset buf sb st) as Ho.
  destruct (scan_step buf sb st) as [st1 out1]. simpl in Ho.
  rewrite IH; [reflexivity|].
  rewrite Ho. apply to_uint8_range.
Qed.

(** Of the uninitialised cells only the one at index [strLength]
    matters, and only whether it holds a space. *)
Lemma printStringToLCD_stack (fuel : nat) (stack : Z -> ascii) (buf : WString.t) :
  printStringToLCD fuel stack buf =
  printStringToLCD fuel
    (if is_space (stack (strLength_of buf)) then blanks else zeros) buf.
Proof.
  unfold printStringToLCD, scan_buffer.
  rewrite (scan_ext buf (stringBuffer_of stack buf)
             (stringBuffer_of
                (if is_space (stack (strLength_of buf)) then blanks else zeros) buf));
    [reflexivity| |simpl; lia].
  intros i Hi.
  assert (i = strLength_of buf \/ 0 <= i < strLength_of buf) as [->|Hlt] by lia.
  - rewrite !stringBuffer_at_strLength.
    destruct (is_space (stack (strLength_of buf))) eqn:E; [reflexivity|].
    reflexivity.
  - now rewrite (stringBuffer_below_strLength stack
                   (if is_space (stack (strLength_of buf)) then blanks else zeros)).
Qed.

Lemma spaces_seen_app (sb : Z -> ascii) (lo : Z) (n m : nat) :
  spaces_seen sb lo (n + m) =
  (spaces_seen sb lo n + spaces_seen sb (lo + Z.of_nat n) m)%nat.
Proof.
  revert lo. induction n as [|n IH]; intros lo.
  - simpl. now rewrite Z.add_0_r.
  - cbn [Nat.add spaces_seen]. rewrite IH.
    replace (lo + 1 + Z.of_nat n) with (lo + Z.of_nat (S n)) by lia. lia.
Qed.

Lemma spaces_seen_list (sb : Z -> ascii) (l : WString.t) (lo : Z) :
  (forall k, (k < List.length l)%nat -> sb (lo + Z.of_nat k) = nth k l WString.NUL) ->
  spaces_seen sb lo (List.length l) = List.length (filter is_space l).
Proof.
  revert lo. induction l as [|c l IH]; intros lo H; [reflexivity|].
  cbn [List.length spaces_seen filter].
  pose proof (H O ltac:(simpl; lia)) as H0. simpl in H0.
  rewrite Z.add_0_r in H0. rewrite H0.
  rewrite IH.
  - destruct (is_space c); reflexivity.
  - intros k Hk. specialize (H (S k) ltac:(simpl; lia)).
    simpl nth in H. rewrite <- H. f_equal. lia.
Qed.

End ArrayFacts.

(** ** The whole pass *)

Section PassFacts.

Import LcdDemo.

Lemma printStringToLCD_fuel_mono (fuel fuel' : nat) (stack : Z -> ascii)
    (buf : WString.t) (out : list Cmd) :
  printStringToLCD fuel stack buf = Some out -> (fuel <= fuel')%nat ->
  printStringToLCD fuel' stack buf = Some out.
Proof.
  unfold printStringToLCD, scan_buffer. intros H Hle.
  destruct (scan fuel buf (stringBuffer_of stack buf) (strLength_of buf) initial)
    as [[st o]|] eqn:Hr; [|discriminate].
  now rewrite (scan_fuel_mono _ _ _ _ _ _ _ Hr Hle).
Qed.

(** The result of a pass does not depend on the fuel it was given. *)
Lemma printStringToLCD_fuel_unique (fuel fuel' : nat) (stack : Z -> ascii)
    (buf : WString.t) (out out' : list Cmd) :
  printStringToLCD fuel stack buf = Some out ->
  printStringToLCD fuel' stack buf = Some out' -> out = out'.
Proof.
  intros H H'.
  apply (printStringToLCD_fuel_mono _ (Nat.max fuel fuel')) in H; [|lia].
  apply (printStringToLCD_fuel_mono _ (Nat.max fuel fuel')) in H'; [|lia].
  congruence.
Qed.

(** A buffer whose length is 255 modulo 256 keeps the loop running for
    ever. *)
Lemma printStringToLCD_diverges (fuel : nat) (stack : Z -> ascii) (buf : WString.t) :
  strLength_of buf = 255 -> printStringToLCD fuel stack buf = None.
Proof.
  intros H. unfold printStringToLCD, scan_buffer. rewrite H.
  rewrite scan_diverges; [reflexivity|]. simpl. lia.
Qed.

(** The NUL bytes that [strncpy] writes after the C string are no
    spaces. *)
Lemma count_spaces_strncpy (s : WString.t) (n : nat) :
  (List.length s <= n)%nat ->
  count_spaces (WString.strncpy s n) = count_spaces (WString.c_str s).
Proof.
  unfold count_spaces. revert s.
  induction n as [|n IH]; intros s Hn.
  - destruct s; [reflexivity|simpl in Hn; lia].
  - destruct s as [|c s]; simpl.
    + change (is_space WString.NUL) with false. apply (IH []). simpl. lia.
    + destruct (Ascii.eqb c WString.NUL) eqn:Ec; simpl.
      * change (is_space WString.NUL) with false. apply (IH []). simpl. lia.
      * destruct (is_space c); simpl; rewrite IH by (simpl in Hn; lia); reflexivity.
Qed.

(** What the loop sees of a buffer shorter than 256 characters: its
    characters but the last, up to the first NUL byte among them, the
    terminator, and one cell of the stack. *)
Lemma spaces_seen_buffer (stack : Z -> ascii) (buf : WString.t) :
  (List.length buf < 256)%nat ->
  spaces_seen (stringBuffer_of stack buf) 0 (S (List.length buf)) =
  (count_spaces (WString.c_str (removelast buf)) +
   (if is_space (stack (Z.of_nat (List.length buf))) then 1 else 0))%nat.
Proof.
  intros Hlen. pose proof (strLength_of_short buf Hlen) as Hs.
  induction buf as [|c b _] using rev_ind.
  - cbn [List.length spaces_seen removelast count_spaces filter].
    change 0 with (strLength_of []) at 1.
    rewrite stringBuffer_at_strLength.
    change (strLength_of []) with 0. simpl Z.of_nat.
    destruct (is_space (stack 0)); reflexivity.
  - rewrite removelast_last. rewrite length_app in *. cbn [List.length] in *.
    replace (S (List.length b + 1)) with (List.length b + 2)%nat by lia.
    rewrite spaces_seen_app. f_equal.
    + pose proof (strncpy_app_prefix b [c]) as Hcut.
      rewrite <- (count_spaces_strncpy b (List.length b)) by lia.
      unfold count_spaces.
      rewrite <- (spaces_seen_list (stringBuffer_of stack (b ++ [c])) _ 0).
      * now rewrite strncpy_length.
      * intros k Hk. rewrite strncpy_length in Hk.
        rewrite stringBuffer_strncpy by lia.
        replace (Z.to_nat (strLength_of (b ++ [c]) - 1)) with (List.length b) by lia.
        rewrite Hcut. f_equal. lia.
    + cbn [spaces_seen].
      replace (0 + Z.of_nat (List.length b)) with (strLength_of (b ++ [c]) - 1) by lia.
      rewrite stringBuffer_terminator by lia.
      replace (strLength_of (b ++ [c]) - 1 + 1) with (strLength_of (b ++ [c])) by lia.
      rewrite stringBuffer_at_strLength, Hs. simpl. lia.
Qed.

(** A pass over a buffer of fewer than 255 characters stops within one
    turn per character plus one, and flushes once per space seen and
    once at the end. *)
Lemma printStringToLCD_short (stack : Z -> ascii) (buf : WString.t) :
  (List.length buf < 255)%nat ->
  exists st out,
    scan_buffer (S (List.length buf)) stack buf = Some (st, out) /\
    printStringToLCD (S (List.length buf)) stack buf =
      Some (out ++ snd (printWord buf st)) /\
    List.length (Display.writes out) =
      (count_spaces (WString.c_str (removelast buf)) +
       (if is_space (stack (Z.of_nat (List.length buf))) then 1 else 0))%nat.
Proof.
  intros Hlen.
  assert (Hs : strLength_of buf = Z.of_nat (List.length buf))
    by (apply strLength_of_short; lia).
  destruct (scan_total buf (stringBuffer_of stack buf) (strLength_of buf)
              (S (List.length buf)) initial) as [[st out] Hr];
    [simpl; lia | lia | simpl offset; lia |].
  exists st, out. unfold printStringToLCD, scan_buffer. rewrite Hr.
  repeat split.
  apply scan_writes in Hr; [|simpl; lia|lia].
  rewrite Hr, Hs. simpl offset.
  replace (Z.to_nat (Z.of_nat (List.length buf) + 1 - 0)) with (S (List.length buf)) by lia.
  apply spaces_seen_buffer. lia.
Qed.

(** Every run written is cut out of the buffer. *)
Lemma printWord_writes_Forall (P : ascii -> Prop) (buf : WString.t) (st : RenderState) :
  Forall P buf -> Forall (Forall P) (Display.writes (snd (printWord buf st))).
Proof.
  intros H. unfold printWord. destruct (fits st).
  - repeat constructor. now apply substring_Forall.
  - destruct (currRow st =? 1); repeat constructor; now apply substring_Forall.
Qed.

Lemma scan_writes_Forall (P : ascii -> Prop) (buf : WString.t) (sb : Z -> ascii)
    (strLength : Z) (fuel : nat) (st st' : RenderState) (out : list Cmd) :
  Forall P buf ->
  scan fuel buf sb strLength st = Some (st', out) ->
  Forall (Forall P) (Display.writes out).
Proof.
  intros HP. revert st st' out.
  induction fuel as [|fuel IH]; intros st st' out; cbn [scan].
  - destruct (offset st <? strLength + 1); [discriminate|].
    intros [= <- <-]. constructor.
  - destruct (offset st <? strLength + 1); [|intros [= <- <-]; constructor].
    assert (Forall (Forall P) (Display.writes (snd (scan_step buf sb st)))) as Hs.
    { unfold scan_step. destruct (is_space (sb (offset st))).
      - pose proof (printWord_writes_Forall P buf st HP) as Hw.
        now destruct (printWord buf st).
      - constructor. }
    destruct (scan_step buf sb st) as [st1 out1]. simpl in Hs.
    destruct (scan fuel buf sb strLength st1) as [[st2 out2]|] eqn:Hr; [|discriminate].
    intros [= <- <-]. rewrite writes_app. apply Forall_app. split; [exact Hs|].
    eapply IH, Hr.
Qed.

Lemma printStringToLCD_writes_Forall (P : ascii -> Prop) (fuel : nat)
    (stack : Z -> ascii) (buf : WString.t) (out : list Cmd) :
  Forall P buf ->
  printStringToLCD fuel stack buf = Some out ->
  Forall (Forall P) (Display.writes out).
Proof.
  intros HP. unfold printStringToLCD, scan_buffer.
  destruct (scan fuel buf (stringBuffer_of stack buf) (strLength_of buf) initial)
    as [[st o]|] eqn:Hr; [|discriminate].
  intros [= <-]. rewrite writes_app. apply Forall_app. split.
  - eapply scan_writes_Forall; eauto.
  - now apply printWord_writes_Forall.
Qed.

(** A pause makes the check of what follows no harder. *)
Lemma clears_paused_weaken (b : bool) (cmds : list Cmd) :
  Display.clears_paused false cmds = true -> Display.clears_paused b cmds = true.
Proof. destruct cmds as [|[] cmds]; simpl; try tauto; discriminate. Qed.

Lemma clears_paused_app (b : bool) (l1 l2 : list Cmd) :
  Display.clears_paused b l1 = true ->
  Display.clears_paused false l2 = true ->
  Display.clears_paused b (l1 ++ l2) = true.
Proof.
  revert b. induction l1 as [|c l1 IH]; intros b H1 H2.
  - now apply clears_paused_weaken.
  - destruct c; simpl in *; try (now apply IH).
    apply andb_true_iff in H1 as [-> H1]. simpl. now apply IH.
Qed.

Lemma printWord_clears_paused (buf : WString.t) (st : RenderState) :
  Display.clears_paused false (snd (printWord buf st)) = true.
Proof.
  unfold printWord. destruct (fits st); [reflexivity|].
  now destruct (currRow st =? 1).
Qed.

Lemma scan_clears_paused (buf : WString.t) (sb : Z -> ascii) (strLength : Z)
    (fuel : nat) (st st' : RenderState) (out : list Cmd) :
  scan fuel buf sb strLength st = Some (st', out) ->
  Display.clears_paused false out = true.
Proof.
  revert st st' out.
  induction fuel as [|fuel IH]; intros st st' out; cbn [scan].
  - destruct (offset st <? strLength + 1); [discriminate|].
    now intros [= <- <-].
  - destruct (offset st <? strLength + 1); [|now intros [= <- <-]].
    assert (Display.clears_paused false (snd (scan_step buf sb st)) = true) as Hs.
    { unfold scan_step. destruct (is_space (sb (offset st))).
      - pose proof (printWord_clears_paused buf st) as Hw.
        now destruct (printWord buf st).
      - reflexivity. }
    destruct (scan_step buf sb st) as [st1 out1]. simpl in Hs.
    destruct (scan fuel buf sb strLength st1) as [[st2 out2]|] eqn:Hr; [|discriminate].
    intros [= <- <-]. apply clears_paused_app; [exact Hs|].
    eapply IH, Hr.
Qed.

End PassFacts.

(** ** Two passes of the specification's test list *)

Section Scenarios.

Import LcdDemo.

(** The first word of 15 characters fits on row 0; the second, counted
    with its space and with the turn after the end of the buffer, does
    not, and goes to row 1 without its space. *)
Example two_word_wrap :
  printStringToLCD 20 zeros (WString.lit "helloworldhello bye") =
  Some [LcdPrint (WString.lit "helloworldhello"); LcdSetCursor 0 1;
        LcdPrint (WString.lit "bye")].
Proof. vm_compute. reflexivity. Qed.

Example word_wrap_scenario :
  option_map (Display.placements (0, 0))
    (printStringToLCD 66 zeros
       (WString.lit "this is a test of word wrap functionality for the lcd display now")) =
  Some [Display.mkPlacement 0 0 (WString.lit "this");
        Display.mkPlacement 0 4 (WString.lit " is");
        Display.mkPlacement 0 7 (WString.lit " a");
        Display.mkPlacement 0 9 (WString.lit " test");
        Display.mkPlacement 1 0 (WString.lit "of");
        Display.mkPlacement 1 2 (WString.lit " word");
        Display.mkPlacement 1 7 (WString.lit " wrap");
        Display.mkPlacement 0 0 (WString.lit "functionality");
        Display.mkPlacement 1 0 (WString.lit "for");
        Display.mkPlacement 1 3 (WString.lit " the");
        Display.mkPlacement 1 7 (WString.lit " lcd");
        Display.mkPlacement 0 0 (WString.lit "display");
        Display.mkPlacement 0 7 (WString.lit " now")].
Proof. vm_compute. reflexivity. Qed.

End Scenarios.

(** * The render pass: termination and number of writes *)

Section RenderPass.

Import LcdDemo.

(** C1, as the code has it: for every content of the uninitialised
    array and every buffer of fewer than 255 characters, the pass stops
    within one turn of the loop per character plus one, and the number
    of runs it hands to [lcd->print] is one per flush: one for every
    space that [toCharArray] copies, that is every space among the
    characters but the last and before the first NUL byte, if the
    buffer holds one; one more if the cell after the terminator happens
    to hold a space; and one for the flush at the end of the buffer. *)
Theorem render_terminates_one_write_per_flush (stack : Z -> ascii) (buf : WString.t) :
  (List.length buf < 255)%nat ->
  exists out,
    printStringToLCD (S (List.length buf)) stack buf = Some out /\
    List.length (Display.writes out) =
      (count_spaces (WString.c_str (removelast buf)) +
       (if is_space (stack (Z.of_nat (List.length buf))) then 1 else 0) + 1)%nat.
Proof.
  intros Hlen.
  destruct (printStringToLCD_short stack buf Hlen) as (st & out & _ & Hp & Hw).
  exists (out ++ snd (printWord buf st)). split; [exact Hp|].
  now rewrite writes_app, length_app, printWord_one_write, Hw.
Qed.

Lemma render_terminates_one_write_per_flush_witness :
  (List.length (WString.lit "this is a test") < 255)%nat /\
  (exists out,
     printStringToLCD 15 zeros (WString.lit "this is a test") = Some out /\
     List.length (Display.writes out) = 4%nat) /\
  (exists out,
     printStringToLCD 4 zeros [WString.NUL; " "%char; "x"%char] = Some out /\
     List.length (Display.writes out) = 1%nat).
Proof.
  split; [simpl; lia|]. split.
  - apply (render_terminates_one_write_per_flush zeros (WString.lit "this is a test")).
    simpl; lia.
  - apply (render_terminates_one_write_per_flush zeros
             [WString.NUL; " "%char; "x"%char]).
    simpl; lia.
Defined.

(** C1 as stated fails: the buffer [a  b] holds two words, and the pass
    writes three runs, none of them empty (the second is a single
    space); the count of the claim is reached for no amount of fuel.  Besides, a buffer of 255 characters keeps the loop
    running for ever. *)
Lemma render_word_count_counterexample :
  printStringToLCD 5 zeros (WString.lit "a  b") =
    Some [LcdPrint (WString.lit "a"); LcdPrint (WString.lit " ");
          LcdPrint (WString.lit " b")] /\
  Words.count (WString.lit "a  b") = 2%nat /\
  ~ (exists fuel out,
       printStringToLCD fuel zeros (WString.lit "a  b") = Some out /\
       List.length (Display.writes out) = Words.count (WString.lit "a  b")) /\
  (forall fuel, printStringToLCD fuel zeros (repeat "a"%char 255) = None).
Proof.
  assert (printStringToLCD 5 zeros (WString.lit "a  b") =
          Some [LcdPrint (WString.lit "a"); LcdPrint (WString.lit " ");
                LcdPrint (WString.lit " b")]) as Hrun by (vm_compute; reflexivity).
  split; [exact Hrun|]. split; [reflexivity|]. split.
  - intros (fuel & out & Hout & Hcount).
    rewrite (printStringToLCD_fuel_unique _ _ _ _ _ _ Hout Hrun) in Hcount.
    vm_compute in Hcount. discriminate.
  - intros fuel. apply printStringToLCD_diverges. vm_compute. reflexivity.
Qed.

End RenderPass.

(** * One flush *)

Section Flush.

Import LcdDemo.

(** C5: a flush that fails the fit test on row 1 issues, in this order,
    the pause of [FRAME_DELAY], the clear, the cursor command for the
    start of row 0 and the write of the word, and leaves [currRow] at 0;
    whatever the cursor was, the word lands at row 0, column 0.  In the
    commands of a whole pass every clear comes directly after the
    pause. *)
Theorem paging_pause_precedes_clear :
  (forall (buf : WString.t) (st : RenderState),
     fits st = false -> currRow st = 1 ->
     snd (printWord buf st) =
       [Delay FRAME_DELAY; LcdClear; LcdSetCursor 0 0;
        LcdPrint (WString.substring buf (lastSpace st + 1)
                    (lastSpace st + wordLength st))] /\
     currRow (fst (printWord buf st)) = 0 /\
     forall cursor,
       Display.placements cursor (snd (printWord buf st)) =
       Display.placements (0, 0)
         [LcdPrint (WString.substring buf (lastSpace st + 1)
                      (lastSpace st + wordLength st))]) /\
  (forall (fuel : nat) (stack : Z -> ascii) (buf : WString.t) (out : list Cmd),
     printStringToLCD fuel stack buf = Some out ->
     Display.clears_paused false out = true).
Proof.
  split.
  - intros buf st Hfit Hrow. unfold printWord. rewrite Hfit, Hrow. simpl.
    repeat split.
  - intros fuel stack buf out. unfold printStringToLCD, scan_buffer.
    destruct (scan fuel buf (stringBuffer_of stack buf) (strLength_of buf) initial)
      as [[st o]|] eqn:Hr; [|discriminate].
    intros [= <-]. apply clears_paused_app.
    + eapply scan_clears_paused, Hr.
    + apply printWord_clears_paused.
Qed.

Lemma paging_pause_precedes_clear_witness :
  snd (printWord (WString.lit "one two three four") (mkState 6 1 7 12 13)) =
    [Delay 3000; LcdClear; LcdSetCursor 0 0; LcdPrint (WString.lit "three")] /\
  Display.clears_paused false
    [LcdPrint (WString.lit "aaaaaaaaaaaa"); LcdSetCursor 0 1;
     LcdPrint (WString.lit "bbbbbbbbbbbb"); Delay 3000; LcdClear;
     LcdSetCursor 0 0; LcdPrint (WString.lit "cccccccccccc")] = true.
Proof.
  destruct paging_pause_precedes_clear as [Hflush Hpass]. split.
  - apply (Hflush (WString.lit "one two three four") (mkState 6 1 7 12 13));
      reflexivity.
  - apply (Hpass 40%nat zeros
             (WString.lit "aaaaaaaaaaaa bbbbbbbbbbbb cccccccccccc")).
    vm_compute. reflexivity.
Defined.

End Flush.

(** * Buffers of spaces *)

Section Blank.

Import LcdDemo.

(** C4, as the code has it: rendering the empty buffer hands only empty
    runs to the display; rendering a buffer of fewer than 255
    characters that holds nothing but spaces writes nothing but spaces;
    and a flush with word length 0 (on a row with [indexSpace] at most
    16) writes the empty run and changes neither row nor column. *)
Theorem blank_buffers_write_blanks :
  (forall stack : Z -> ascii,
     printStringToLCD 1 stack [] =
     Some (if is_space (stack 0) then [LcdPrint []; LcdPrint []] else [LcdPrint []])) /\
  (forall (stack : Z -> ascii) (buf : WString.t),
     Forall is_blank buf -> (List.length buf < 255)%nat ->
     exists out,
       printStringToLCD (S (List.length buf)) stack buf = Some out /\
       Forall (Forall is_blank) (Display.writes out)) /\
  (forall (buf : WString.t) (st : RenderState),
     wordLength st = 0 -> 0 <= indexSpace st <= CHARS_PER_LINE ->
     printWord buf st =
     (mkState 0 (currRow st) (offset st) (indexSpace st) (offset st),
      [LcdPrint []])).
Proof.
  repeat split.
  - intros stack. rewrite printStringToLCD_stack.
    change (strLength_of []) with 0.
    destruct (is_space (stack 0)); reflexivity.
  - intros stack buf Hblank Hlen.
    destruct (printStringToLCD_short stack buf Hlen) as (st & o & _ & Hout & _).
    eexists. split; [exact Hout|].
    eapply printStringToLCD_writes_Forall; eauto.
  - intros buf st Hwl Hidx. unfold CHARS_PER_LINE in Hidx.
    unfold printWord, fits, CHARS_PER_LINE. rewrite Hwl.
    destruct (indexSpace st + 0 - 1 <? 16) eqn:E; [|apply Z.ltb_ge in E; lia].
    rewrite !Z.add_0_r, substring_same, to_uint8_small by lia. reflexivity.
Qed.

Lemma blank_buffers_write_blanks_witness :
  (exists out,
     printStringToLCD 4 zeros (WString.lit "   ") = Some out /\
     Forall (Forall is_blank) (Display.writes out)) /\
  printWord (WString.lit " a") (mkState 0 0 0 0 0) =
    (mkState 0 0 0 0 0, [LcdPrint []]).
Proof.
  destruct blank_buffers_write_blanks as (_ & Hblank & Hflush). split.
  - apply (Hblank zeros (WString.lit "   ")); [|simpl; lia].
    repeat constructor.
  - apply (Hflush (WString.lit " a") (mkState 0 0 0 0 0));
      [reflexivity | unfold CHARS_PER_LINE; simpl; lia].
Defined.

(** C4 as stated fails.  A buffer of three spaces puts two runs that
    are not empty on the display, of one and of two spaces.  And a
    second space between two words changes what is written: one more
    run, and the next word one column further to the right. *)
Lemma blank_buffers_counterexample :
  printStringToLCD 4 zeros (WString.lit "   ") =
    Some [LcdPrint []; LcdPrint (WString.lit " "); LcdPrint (WString.lit "  ")] /\
  Display.placements (0, 0)
    [LcdPrint []; LcdPrint (WString.lit " "); LcdPrint (WString.lit "  ")] =
    [Display.mkPlacement 0 0 (WString.lit " ");
     Display.mkPlacement 0 1 (WString.lit "  ")] /\
  printStringToLCD 4 zeros (WString.lit "a b") =
    Some [LcdPrint (WString.lit "a"); LcdPrint (WString.lit " b")] /\
  printStringToLCD 5 zeros (WString.lit "a  b") =
    Some [LcdPrint (WString.lit "a"); LcdPrint (WString.lit " ");
          LcdPrint (WString.lit " b")] /\
  printStringToLCD 4 zeros (WString.lit "a b") <>
  printStringToLCD 5 zeros (WString.lit "a  b").
Proof.
  repeat split; try (vm_compute; reflexivity).
  vm_compute. discriminate.
Qed.

End Blank.

(** * The last character of the buffer *)

Section LastCharacter.

Import LcdDemo.

(** [strncpy] does not reach a last character that lies beyond its [n]
    characters. *)
Lemma strncpy_app_last (b : WString.t) (c c' : ascii) (n : nat) :
  (n <= List.length b)%nat ->
  WString.strncpy (b ++ [c]) n = WString.strncpy (b ++ [c']) n.
Proof.
  intros Hn.
  rewrite <- (strncpy_firstn (b ++ [c])), <- (strncpy_firstn (b ++ [c'])).
  rewrite !firstn_app. replace (n - List.length b)%nat with O by lia.
  reflexivity.
Qed.

Lemma stringBuffer_app_last (stack : Z -> ascii) (b : WString.t) (c c' : ascii) (i : Z) :
  0 <= i ->
  stringBuffer_of stack (b ++ [c]) i = stringBuffer_of stack (b ++ [c']) i.
Proof.
  intros Hi.
  assert (Hs : strLength_of (b ++ [c]) = strLength_of (b ++ [c'])).
  { unfold strLength_of, WString.length. now rewrite !length_app. }
  assert (Hl : WString.length (b ++ [c]) = WString.length (b ++ [c'])).
  { unfold WString.length. now rewrite !length_app. }
  pose proof (strLength_le_length (b ++ [c])) as Hle.
  unfold stringBuffer_of, WString.toCharArray. rewrite <- Hs, <- Hl.
  destruct (strLength_of (b ++ [c]) =? 0); [reflexivity|].
  destruct (WString.length (b ++ [c]) <=? 0); [reflexivity|].
  destruct (WString.length (b ++ [c]) <? strLength_of (b ++ [c]) - 1) eqn:E;
    [apply Z.ltb_lt in E; lia|].
  destruct (i <? strLength_of (b ++ [c]) - 1) eqn:E1; [|reflexivity].
  apply Z.ltb_lt in E1.
  unfold WString.length in Hle. rewrite length_app in Hle. simpl in Hle.
  rewrite (strncpy_app_last b c c') by lia. reflexivity.
Qed.

(** A flush whose range ends before the last character writes the same
    run whatever that character is. *)
Lemma printWord_app_last (b : WString.t) (c c' : ascii) (st : RenderState) :
  0 <= lastSpace st -> 0 <= wordLength st ->
  lastSpace st + wordLength st < WString.length b ->
  printWord (b ++ [c]) st = printWord (b ++ [c']) st.
Proof.
  intros Hls Hwl Hend. unfold printWord.
  rewrite (substring_app_last b c c' (lastSpace st)) by lia.
  rewrite (substring_app_last b c c' (lastSpace st + 1)) by lia.
  reflexivity.
Qed.

(** As long as no space is seen from the cell of the last character on,
    the loop does the same whatever the last character is. *)
Lemma scan_app_last (b : WString.t) (c c' : ascii) (sb : Z -> ascii)
    (strLength : Z) (fuel : nat) (st : RenderState) :
  strLength <= 254 ->
  (forall i, WString.length b <= i <= strLength -> is_space (sb i) = false) ->
  0 <= lastSpace st -> 0 <= wordLength st ->
  lastSpace st + wordLength st = offset st ->
  scan fuel (b ++ [c]) sb strLength st = scan fuel (b ++ [c']) sb strLength st.
Proof.
  intros Hlen Hsb. revert st.
  induction fuel as [|fuel IH]; intros st Hls Hwl Hoff; cbn [scan]; [reflexivity|].
  destruct (offset st <? strLength + 1) eqn:E; [|reflexivity].
  apply Z.ltb_lt in E.
  assert (Hstep : scan_step (b ++ [c]) sb st = scan_step (b ++ [c']) sb st).
  { unfold scan_step. destruct (is_space (sb (offset st))) eqn:Es; [|reflexivity].
    rewrite (printWord_app_last b c c'); [reflexivity|lia|lia|].
    assert (offset st < WString.length b \/ WString.length b <= offset st)
      as [Hlt|Hge] by lia; [lia|].
    rewrite Hsb in Es by lia. discriminate. }
  rewrite <- Hstep.
  assert (Hinv : let st1 := fst (scan_step (b ++ [c]) sb st) in
                 0 <= lastSpace st1 /\ 0 <= wordLength st1 /\
                 lastSpace st1 + wordLength st1 = offset st1).
  { unfold scan_step. destruct (is_space (sb (offset st))).
    - pose proof (printWord_offset (b ++ [c]) st) as Ho.
      pose proof (printWord_lastSpace (b ++ [c]) st) as Hl.
      pose proof (printWord_wordLength (b ++ [c]) st) as Hw.
      destruct (printWord (b ++ [c]) st) as [st1 out]. simpl in *.
      rewrite Ho, Hl, Hw. rewrite !to_uint8_small by lia. lia.
    - simpl. rewrite !to_uint8_small by lia. lia. }
  destruct (scan_step (b ++ [c]) sb st) as [st1 out1]. simpl in Hinv.
  destruct Hinv as (H1 & H2 & H3).
  rewrite IH by assumption. reflexivity.
Qed.

End LastCharacter.

Section LastCharacterClaim.

Import LcdDemo.

(** C10, as the code has it: for a buffer [b ++ [c]] of fewer than 255
    characters, [toCharArray] copies the characters of [b] only (up to
    the first NUL byte of [b], if it holds one, and NUL from there on)
    and puts the terminator in the cell of the last character [c]; the
    array that the loop tests is the same whatever [c] is, so [c] being
    a space triggers no flush; and if the cell after the terminator,
    which is not initialised, does not hold a space, the loop issues
    the same commands and leaves the same variables whatever [c] is: no
    flush inside the loop carries the last character. *)
Theorem last_character_never_a_delimiter (stack : Z -> ascii) (b : WString.t) (c : ascii) :
  (List.length (b ++ [c]) < 255)%nat ->
  (forall i, 0 <= i < Z.of_nat (List.length b) ->
     stringBuffer_of stack (b ++ [c]) i =
     nth (Z.to_nat i) (WString.c_str b) WString.NUL) /\
  stringBuffer_of stack (b ++ [c]) (Z.of_nat (List.length b)) = WString.NUL /\
  (forall c' i, 0 <= i ->
     stringBuffer_of stack (b ++ [c]) i = stringBuffer_of stack (b ++ [c']) i) /\
  (is_space (stack (Z.of_nat (List.length (b ++ [c])))) = false ->
   forall c' fuel,
     scan_buffer fuel stack (b ++ [c]) = scan_buffer fuel stack (b ++ [c'])).
Proof.
  intros Hlen.
  assert (Hs : strLength_of (b ++ [c]) = Z.of_nat (List.length b) + 1).
  { rewrite strLength_of_short by lia. rewrite length_app. simpl. lia. }
  rewrite length_app in Hlen. simpl in Hlen.
  repeat split.
  - intros i Hi. rewrite stringBuffer_strncpy by lia.
    replace (Z.to_nat (strLength_of (b ++ [c]) - 1)) with (List.length b) by lia.
    rewrite strncpy_app_prefix. apply strncpy_nth. lia.
  - replace (Z.of_nat (List.length b)) with (strLength_of (b ++ [c]) - 1) by lia.
    apply stringBuffer_terminator. lia.
  - intros c' i Hi. now apply stringBuffer_app_last.
  - intros Hstack c' fuel. unfold scan_buffer.
    assert (Hs' : strLength_of (b ++ [c']) = strLength_of (b ++ [c])).
    { unfold strLength_of, WString.length. now rewrite !length_app. }
    rewrite Hs'.
    rewrite (scan_ext (b ++ [c']) (stringBuffer_of stack (b ++ [c']))
               (stringBuffer_of stack (b ++ [c])));
      [| intros i Hi; now rewrite (stringBuffer_app_last stack b c' c) by lia
       | simpl; lia].
    apply scan_app_last; simpl; try lia.
    intros i Hi. unfold WString.length in Hi.
    assert (i = strLength_of (b ++ [c]) - 1 \/ i = strLength_of (b ++ [c]))
      as [->| ->] by lia.
    + rewrite stringBuffer_terminator by lia. reflexivity.
    + rewrite stringBuffer_at_strLength, Hs.
      rewrite length_app in Hstack. simpl in Hstack.
      replace (Z.of_nat (List.length b) + 1)
        with (Z.of_nat (List.length b + 1)) by lia.
      exact Hstack.
Qed.

Lemma last_character_never_a_delimiter_witness :
  stringBuffer_of zeros (WString.lit "ab ") 2 = WString.NUL /\
  scan_buffer 4 zeros (WString.lit "ab ") = scan_buffer 4 zeros (WString.lit "abc").
Proof.
  destruct (last_character_never_a_delimiter zeros (WString.lit "ab") " "%char)
    as (_ & Hnul & _ & Hloop).
  - simpl; lia.
  - split; [exact Hnul|].
    apply (Hloop eq_refl "c"%char 4%nat).
Defined.

(** C10 as stated fails when the cell after the terminator holds a
    space: that cell makes the loop flush at [offset = strLength], and
    this flush inside the loop carries the last character; the flush at
    the end of the buffer then writes the empty run. *)
Lemma last_character_counterexample :
  scan_buffer 3 blanks (WString.lit "ab") =
    Some (mkState 1 0 2 2 3, [LcdPrint (WString.lit "ab")]) /\
  scan_buffer 3 blanks (WString.lit "ac") =
    Some (mkState 1 0 2 2 3, [LcdPrint (WString.lit "ac")]) /\
  printStringToLCD 3 blanks (WString.lit "ab") =
    Some [LcdPrint (WString.lit "ab"); LcdPrint []].
Proof. repeat split; vm_compute; reflexivity. Qed.

End LastCharacterClaim.

(** * Words that do not fit *)

Section Overflow.

Import LcdDemo.

(** C2 on the code: for the single word [abcdefghijklmnop] of 16
    characters the flush at the end of the buffer sees
    [wordLength = 17], so the fit test fails: the pass moves to row 1
    and writes the word without its first character.  If the
    uninitialised cell holds a space, the word is written whole on row
    0 by a flush inside the loop, and the row still advances at the
    end. *)
Theorem exact_fit_word_advances_row :
  (forall stack : Z -> ascii,
     printStringToLCD 17 stack (WString.lit "abcdefghijklmnop") =
     Some (if is_space (stack 16)
           then [LcdPrint (WString.lit "abcdefghijklmnop"); LcdSetCursor 0 1;
                 LcdPrint []]
           else [LcdSetCursor 0 1; LcdPrint (WString.lit "bcdefghijklmnop")])) /\
  Display.placements (0, 0)
    [LcdSetCursor 0 1; LcdPrint (WString.lit "bcdefghijklmnop")] =
    [Display.mkPlacement 1 0 (WString.lit "bcdefghijklmnop")].
Proof.
  split; [|reflexivity].
  intros stack. rewrite printStringToLCD_stack.
  change (strLength_of (WString.lit "abcdefghijklmnop")) with 16.
  destruct (is_space (stack 16)); vm_compute; reflexivity.
Qed.

(** C3 on the code: the single word [abcdefghijklmnopqrstu] of 21
    characters is written on row 1 from column 0 on, without its first
    character. *)
Theorem long_first_word_loses_first_character :
  (forall stack : Z -> ascii,
     printStringToLCD 22 stack (WString.lit "abcdefghijklmnopqrstu") =
     Some ([LcdSetCursor 0 1; LcdPrint (WString.lit "bcdefghijklmnopqrstu")] ++
           if is_space (stack 21)
           then [Delay 3000; LcdClear; LcdSetCursor 0 0; LcdPrint []]
           else [])) /\
  Display.placements (0, 0)
    [LcdSetCursor 0 1; LcdPrint (WString.lit "bcdefghijklmnopqrstu")] =
    [Display.mkPlacement 1 0 (WString.lit "bcdefghijklmnopqrstu")].
Proof.
  split; [|reflexivity].
  intros stack. rewrite printStringToLCD_stack.
  change (strLength_of (WString.lit "abcdefghijklmnopqrstu")) with 21.
  destruct (is_space (stack 21)); vm_compute; reflexivity.
Qed.

(** C7 on the code: in [abcdefghijklmnopq rs] the first word, of 17
    characters, fails the fit test and is moved to row 1, where it is
    written without its first character. *)
Theorem wrapped_first_word_not_whole (stack : Z -> ascii) :
  printStringToLCD 21 stack (WString.lit "abcdefghijklmnopq rs") =
  Some ([LcdSetCursor 0 1; LcdPrint (WString.lit "bcdefghijklmnopq");
         Delay 3000; LcdClear; LcdSetCursor 0 0; LcdPrint (WString.lit "rs")] ++
        if is_space (stack 20) then [LcdPrint []] else []).
Proof.
  rewrite printStringToLCD_stack.
  change (strLength_of (WString.lit "abcdefghijklmnopq rs")) with 20.
  destruct (is_space (stack 20)); vm_compute; reflexivity.
Qed.

End Overflow.

(** * Start-up of the LCD demo *)

Section Setup.

Import LcdDemo.

(** The probing loop tries the addresses from 1 to 127 and stops. *)
Lemma probe_total (endTransmission : Z -> Z) (fuel : nat) (a : Z) :
  0 <= a -> (Z.to_nat (128 - a) <= fuel)%nat ->
  exists r, probe fuel endTransmission (to_uint8 128) a = Some r.
Proof.
  change (to_uint8 128) with 128.
  revert a. induction fuel as [|fuel IH]; intros a Ha Hfuel; cbn [probe].
  - destruct (a <? 128) eqn:E; [apply Z.ltb_lt in E; lia|eauto].
  - destruct (a <? 128) eqn:E; [|eauto]. apply Z.ltb_lt in E.
    destruct (endTransmission a =? 0); [eauto|].
    rewrite to_uint8_small by lia. apply IH; lia.
Qed.

(** An address that answered is one of the addresses tried. *)
Lemma probe_found_range (endTransmission : Z -> Z) (fuel : nat) (a a' : Z) :
  0 <= a ->
  probe fuel endTransmission (to_uint8 128) a = Some (true, a') ->
  0 <= a' < 128 /\ endTransmission a' = 0.
Proof.
  change (to_uint8 128) with 128.
  revert a. induction fuel as [|fuel IH]; intros a Ha; cbn [probe].
  - destruct (a <? 128); discriminate.
  - destruct (a <? 128) eqn:E; [|discriminate]. apply Z.ltb_lt in E.
    destruct (endTransmission a =? 0) eqn:Et.
    + intros [= <-]. apply Z.eqb_eq in Et. lia.
    + apply IH. rewrite to_uint8_small by lia. lia.
Qed.

(** C8 on the code: whatever the bus answers, [setup] stops and leaves
    [lcd] pointing to a display object, after the five commands that
    initialise the display.  When no device answers,
    [findDeviceAddress] returns 255, which is [DEVICE_NOT_FOUND]
    converted to [uint8_t], the comparison with -1 does not hold, and
    the display is set up at address 255. *)
Theorem setup_never_skips_display :
  (forall endTransmission : Z -> Z,
     exists (address : Z) (serial : list Cmd),
       setup 127 endTransmission =
       Some (Some address,
             SerialBegin BAUD_RATE :: serial ++
             [LcdBegin CHARS_PER_LINE NUM_LINES; LcdSetBacklightPin BACKLIGHT_PIN;
              LcdSetBacklight LED_ON; LcdClear; LcdSetCursor 0 0])) /\
  findDeviceAddress 127 (fun _ => 2) = Some (255, []) /\
  setup 127 (fun _ => 2) =
    Some (Some 255,
          [SerialBegin 9600; LcdBegin 16 2; LcdSetBacklightPin 3;
           LcdSetBacklight 1; LcdClear; LcdSetCursor 0 0]).
Proof.
  split; [|split; vm_compute; reflexivity].
  intros bus. unfold setup, findDeviceAddress.
  destruct (probe_total bus 127 1) as [[found a] Hr]; [lia|simpl; lia|].
  rewrite Hr. destruct found.
  - apply probe_found_range in Hr as [Ha _]; [|lia].
    unfold DEVICE_NOT_FOUND.
    destruct (a =? -1) eqn:E; [apply Z.eqb_eq in E; lia|].
    exists a, [SerialPrint (WString.lit "Device Address: "); SerialPrintAddress a].
    reflexivity.
  - exists 255, []. reflexivity.
Qed.

End Setup.

(** * Command dispatch of the Bluetooth demo *)

Section Dispatch.

Import BluetoothDemo.

(** C9: the three tokens [LFM], [WFM] and [HELP] each produce their
    fixed output, and every buffer that is equal, character for
    character, to none of them produces the fixed answer that starts
    with the line [Command not recognized.] and ends with the hint to
    type HELP, and nothing on the display. *)
Theorem dispatch_exact_match :
  updateBluetooth (Some (WString.lit "LFM")) =
    [ManagerPrintStringToLCD (WString.lit "Line Follower Mode Enabled");
     BTprintln (WString.lit "Line Follower Mode Enabled")] /\
  updateBluetooth (Some (WString.lit "WFM")) =
    [ManagerPrintStringToLCD (WString.lit "Wall Follower Mode Enabled");
     BTprintln (WString.lit "Wall Follower Mode Enabled")] /\
  updateBluetooth (Some (WString.lit "HELP")) =
    [BTprintln (WString.lit "Commands:");
     BTprintln (WString.lit "WFM -> Enable Wall Follow Mode");
     BTprintln (WString.lit "LFM -> Enable Line Follow Mode")] /\
  (forall stringBuffer : WString.t,
     stringBuffer <> WString.lit "LFM" ->
     stringBuffer <> WString.lit "WFM" ->
     stringBuffer <> WString.lit "HELP" ->
     updateBluetooth (Some stringBuffer) =
       [BTprintln (WString.lit "Command not recognized.");
        BTprintln type_help_hint]).
Proof.
  repeat split.
  intros s Hl Hw Hh. unfold updateBluetooth.
  rewrite (equals_neq s LINE_FOLLOW_MODE Hl).
  rewrite (equals_neq s WALL_FOLLOW_MODE Hw).
  rewrite (equals_neq s BLUETOOTH_HELP Hh).
  reflexivity.
Qed.

Lemma dispatch_exact_match_witness :
  updateBluetooth (Some (WString.lit "lfm")) =
    [BTprintln (WString.lit "Command not recognized.");
     BTprintln type_help_hint].
Proof.
  destruct dispatch_exact_match as (_ & _ & _ & Hother).
  apply (Hother (WString.lit "lfm")); discriminate.
Defined.

End Dispatch.

(** * Further properties of the LCD demo *)

(** ** Address discovery *)

Section Discovery.

Import LcdDemo.

Lemma probe_reaches (endTransmission : Z -> Z) (fuel : nat) (a target : Z) :
  0 <= a <= target -> target < 128 ->
  (forall x, a <= x < target -> endTransmission x <> 0) ->
  endTransmission target = 0 ->
  (Z.to_nat (target + 1 - a) <= fuel)%nat ->
  probe fuel endTransmission (to_uint8 128) a = Some (true, target).
Proof.
  change (to_uint8 128) with 128.
  revert a. induction fuel as [|fuel IH]; intros a Ha Ht Hlow Hack Hfuel; [lia|].
  cbn [probe].
  destruct (a <? 128) eqn:E; [|apply Z.ltb_ge in E; lia].
  destruct (endTransmission a =? 0) eqn:Ea.
  - apply Z.eqb_eq in Ea.
    assert (a = target \/ a < target) as [->|Hlt] by lia; [reflexivity|].
    exfalso. apply (Hlow a); [lia|exact Ea].
  - apply Z.eqb_neq in Ea.
    assert (a <> target) by congruence.
    rewrite to_uint8_small by lia.
    apply IH; try lia. intros x Hx. apply Hlow. lia.
Qed.

Lemma probe_silent (endTransmission : Z -> Z) (fuel : nat) (a : Z) :
  0 <= a ->
  (forall x, a <= x < 128 -> endTransmission x <> 0) ->
  (Z.to_nat (128 - a) <= fuel)%nat ->
  exists a', probe fuel endTransmission (to_uint8 128) a = Some (false, a').
Proof.
  change (to_uint8 128) with 128.
  revert a. induction fuel as [|fuel IH]; intros a Ha Hbus Hfuel; cbn [probe].
  - destruct (a <? 128) eqn:E; [apply Z.ltb_lt in E; lia|eauto].
  - destruct (a <? 128) eqn:E; [|eauto]. apply Z.ltb_lt in E.
    destruct (endTransmission a =? 0) eqn:Et.
    + apply Z.eqb_eq in Et. exfalso. apply (Hbus a); [lia|exact Et].
    + rewrite to_uint8_small by lia. apply IH; try lia.
      intros x Hx. apply Hbus. lia.
Qed.

(** X1: [findDeviceAddress] returns the lowest address from 1 to 127
    that acknowledges, and prints it on the serial console; the
    addresses 0 and 128 and above are never tried, whatever they would
    answer. *)
Theorem findDeviceAddress_lowest (endTransmission : Z -> Z) (a : Z) :
  1 <= a < 128 ->
  endTransmission a = 0 ->
  (forall x, 1 <= x < a -> endTransmission x <> 0) ->
  findDeviceAddress 127 endTransmission =
  Some (a, [SerialPrint (WString.lit "Device Address: "); SerialPrintAddress a]).
Proof.
  intros Ha Hack Hlow. unfold findDeviceAddress.
  rewrite (probe_reaches endTransmission 127 1 a); try lia; [reflexivity|].
  intros x Hx. apply Hlow. lia.
Qed.

Lemma findDeviceAddress_lowest_witness :
  findDeviceAddress 127 (fun x => if (x =? 0) || (x =? 39) || (x =? 63) then 0 else 2) =
  Some (39, [SerialPrint (WString.lit "Device Address: "); SerialPrintAddress 39]).
Proof.
  apply (findDeviceAddress_lowest
           (fun x => if (x =? 0) || (x =? 39) || (x =? 63) then 0 else 2) 39).
  - lia.
  - reflexivity.
  - intros x Hx.
    destruct (x =? 0) eqn:E0; [apply Z.eqb_eq in E0; lia|].
    destruct (x =? 39) eqn:E1; [apply Z.eqb_eq in E1; lia|].
    destruct (x =? 63) eqn:E2; [apply Z.eqb_eq in E2; lia|].
    simpl. discriminate.
Defined.

(** X2: when no address from 1 to 127 acknowledges, [findDeviceAddress]
    returns 255 and prints nothing, and [setup] sets the display up at
    address 255; a device at address 0 or above 127 is not found. *)
Theorem findDeviceAddress_none (endTransmission : Z -> Z) :
  (forall x, 1 <= x < 128 -> endTransmission x <> 0) ->
  findDeviceAddress 127 endTransmission = Some (255, []) /\
  option_map fst (setup 127 endTransmission) = Some (Some 255).
Proof.
  intros Hbus.
  assert (Hf : findDeviceAddress 127 endTransmission = Some (255, [])).
  { unfold findDeviceAddress.
    destruct (probe_silent endTransmission 127 1) as [a' Hr];
      [lia | intros x Hx; apply Hbus; lia | simpl; lia |].
    rewrite Hr. reflexivity. }
  split; [exact Hf|].
  unfold setup. rewrite Hf. reflexivity.
Qed.

Lemma findDeviceAddress_none_witness :
  findDeviceAddress 127 (fun x => if (1 <=? x) && (x <? 128) then 2 else 0) =
  Some (255, []).
Proof.
  apply (findDeviceAddress_none (fun x => if (1 <=? x) && (x <? 128) then 2 else 0)).
  intros x Hx.
  destruct (1 <=? x) eqn:E1; [|apply Z.leb_gt in E1; lia].
  destruct (x <? 128) eqn:E2; [|apply Z.ltb_ge in E2; lia].
  simpl. discriminate.
Defined.

End Discovery.

(** ** Turns of the loop *)

Section Turns.

Import LcdDemo.

Lemma scan_step_inv (buf : WString.t) (sb : Z -> ascii) (strLength : Z)
    (st : RenderState) :
  strLength <= 254 -> Pass.scan_inv strLength st -> offset st < strLength + 1 ->
  Pass.scan_inv strLength (fst (scan_step buf sb st)).
Proof.
  intros Hs (Hls & Hwl & Hsum & Hoff) Hlt. unfold Pass.scan_inv, scan_step.
  destruct (is_space (sb (offset st))).
  - pose proof (printWord_offset buf st) as Ho.
    pose proof (printWord_lastSpace buf st) as Hl.
    pose proof (printWord_wordLength buf st) as Hw.
    destruct (printWord buf st) as [st1 out]. simpl in *.
    rewrite Ho, Hl, Hw. rewrite !to_uint8_small by lia. lia.
  - simpl. rewrite !to_uint8_small by lia. lia.
Qed.

(** When the loop stops, [offset] is [strLength + 1]. *)
Lemma scan_final_inv (buf : WString.t) (sb : Z -> ascii) (strLength : Z)
    (fuel : nat) (st st' : RenderState) (out : list Cmd) :
  strLength <= 254 -> Pass.scan_inv strLength st ->
  scan fuel buf sb strLength st = Some (st', out) ->
  Pass.scan_inv strLength st' /\ offset st' = strLength + 1.
Proof.
  intros Hs. revert st st' out.
  induction fuel as [|fuel IH]; intros st st' out Hinv; cbn [scan].
  - destruct (offset st <? strLength + 1) eqn:E; [discriminate|].
    apply Z.ltb_ge in E. intros [= <- <-]. split; [exact Hinv|].
    destruct Hinv as (_ & _ & _ & Hoff). lia.
  - destruct (offset st <? strLength + 1) eqn:E.
    + apply Z.ltb_lt in E.
      pose proof (scan_step_inv buf sb strLength st Hs Hinv E) as Hinv1.
      destruct (scan_step buf sb st) as [st1 out1]. simpl in Hinv1.
      destruct (scan fuel buf sb strLength st1) as [[st2 out2]|] eqn:Hr; [|discriminate].
      intros [= <- <-]. eapply IH; eauto.
    + apply Z.ltb_ge in E. intros [= <- <-]. split; [exact Hinv|].
      destruct Hinv as (_ & _ & _ & Hoff). lia.
Qed.

Lemma scan_inv_initial (strLength : Z) : 0 <= strLength -> Pass.scan_inv strLength initial.
Proof. intros H. unfold Pass.scan_inv. simpl. lia. Qed.

(** The loop does not stop before [strLength + 1 - offset] turns. *)
Lemma scan_needs_fuel (buf : WString.t) (sb : Z -> ascii) (strLength : Z)
    (fuel : nat) (st : RenderState) r :
  0 <= offset st -> strLength <= 254 ->
  scan fuel buf sb strLength st = Some r ->
  (Z.to_nat (strLength + 1 - offset st) <= fuel)%nat.
Proof.
  intros Hoff Hs. revert st r Hoff.
  induction fuel as [|fuel IH]; intros st r Hoff; cbn [scan].
  - destruct (offset st <? strLength + 1) eqn:E; [discriminate|].
    apply Z.ltb_ge in E. lia.
  - destruct (offset st <? strLength + 1) eqn:E; [|apply Z.ltb_ge in E; lia].
    apply Z.ltb_lt in E.
    pose proof (scan_step_offset buf sb st) as Hstep.
    destruct (scan_step buf sb st) as [st1 out1]. simpl in Hstep.
    rewrite to_uint8_small in Hstep by lia.
    destruct (scan fuel buf sb strLength st1) as [r1|] eqn:Hr; [|discriminate].
    intros _. apply IH in Hr; lia.
Qed.

(** X3: the loop of [printStringToLCD] makes exactly [strLength + 1]
    turns, where [strLength] is the length of the buffer modulo 256,
    unless [strLength] is 255, in which case it never stops: the pass
    returns with a given number of turns allowed if and only if
    [strLength] is not 255 and more than [strLength] turns are
    allowed. *)
Theorem pass_takes_strLength_plus_one_turns (fuel : nat) (stack : Z -> ascii)
    (buf : WString.t) :
  printStringToLCD fuel stack buf <> None <->
  strLength_of buf <> 255 /\ (Z.to_nat (strLength_of buf) < fuel)%nat.
Proof.
  pose proof (strLength_of_range buf) as Hr.
  split.
  - intros Hsome.
    assert (strLength_of buf <> 255) as Hne.
    { intros H255. apply Hsome. now apply printStringToLCD_diverges. }
    split; [exact Hne|].
    unfold printStringToLCD, scan_buffer in Hsome.
    destruct (scan fuel buf (stringBuffer_of stack buf) (strLength_of buf) initial)
      as [r|] eqn:Hscan; [|congruence].
    apply scan_needs_fuel in Hscan; simpl offset in *; lia.
  - intros [Hne Hfuel]. unfold printStringToLCD, scan_buffer.
    destruct (scan_total buf (stringBuffer_of stack buf) (strLength_of buf) fuel initial)
      as [[st out] Hscan]; [simpl; lia | lia | simpl offset; lia |].
    rewrite Hscan. discriminate.
Qed.

Lemma pass_takes_strLength_plus_one_turns_witness :
  printStringToLCD 5 zeros (WString.lit "a  b") <> None /\
  (strLength_of (WString.lit "a  b") <> 255 /\
   (Z.to_nat (strLength_of (WString.lit "a  b")) < 5)%nat).
Proof.
  split.
  - apply (proj2 (pass_takes_strLength_plus_one_turns 5 zeros (WString.lit "a  b"))).
    split; [vm_compute; discriminate | vm_compute; lia].
  - apply (proj1 (pass_takes_strLength_plus_one_turns 5 zeros (WString.lit "a  b"))).
    vm_compute. discriminate.
Defined.

End Turns.

(** ** Buffers of 256 characters and more *)

Section Truncation.

Import LcdDemo.

(** Two buffers of the same length with the same first [n] characters
    have the same slices within these [n] characters. *)
Lemma substring_agree (buf1 buf2 : WString.t) (n : nat) (l r : Z) :
  List.length buf1 = List.length buf2 ->
  firstn n buf1 = firstn n buf2 ->
  0 <= l <= Z.of_nat n -> 0 <= r <= Z.of_nat n ->
  WString.substring buf1 l r = WString.substring buf2 l r.
Proof.
  intros Hlen Hpre Hl Hr. unfold WString.substring, WString.length.
  rewrite <- Hlen.
  set (lo := if r <? l then r else l).
  set (hi := if r <? l then l else r).
  assert (0 <= lo <= hi /\ hi <= Z.of_nat n) as (Hlo & Hhi).
  { subst lo hi. destruct (r <? l) eqn:E;
      [apply Z.ltb_lt in E | apply Z.ltb_ge in E]; lia. }
  destruct (Z.of_nat (List.length buf1) <=? lo); [reflexivity|].
  set (hi' := if Z.of_nat (List.length buf1) <? hi
              then Z.of_nat (List.length buf1) else hi).
  assert (hi' <= hi) by (subst hi'; destruct (_ <? hi) eqn:E;
                         [apply Z.ltb_lt in E|]; lia).
  rewrite !firstn_skipn_comm.
  assert (Hcut : forall b : WString.t,
            firstn (Z.to_nat lo + Z.to_nat (hi' - lo)) b =
            firstn (Z.to_nat lo + Z.to_nat (hi' - lo)) (firstn n b)).
  { intros b. rewrite firstn_firstn. f_equal. lia. }
  rewrite (Hcut buf1), (Hcut buf2), Hpre. reflexivity.
Qed.

Lemma printWord_agree (buf1 buf2 : WString.t) (n : nat) (st : RenderState) :
  List.length buf1 = List.length buf2 ->
  firstn n buf1 = firstn n buf2 ->
  0 <= lastSpace st -> 0 <= wordLength st ->
  lastSpace st + 1 <= Z.of_nat n ->
  lastSpace st + wordLength st <= Z.of_nat n ->
  printWord buf1 st = printWord buf2 st.
Proof.
  intros Hlen Hpre Hls Hwl H1 H2. unfold printWord.
  rewrite (substring_agree buf1 buf2 n (lastSpace st)) by (assumption || lia).
  rewrite (substring_agree buf1 buf2 n (lastSpace st + 1)) by (assumption || lia).
  reflexivity.
Qed.

Lemma scan_agree (buf1 buf2 : WString.t) (sb : Z -> ascii) (strLength : Z)
    (fuel : nat) (st : RenderState) :
  List.length buf1 = List.length buf2 ->
  0 <= strLength <= 254 ->
  firstn (Z.to_nat (strLength + 1)) buf1 = firstn (Z.to_nat (strLength + 1)) buf2 ->
  Pass.scan_inv strLength st ->
  scan fuel buf1 sb strLength st = scan fuel buf2 sb strLength st.
Proof.
  intros Hlen Hs Hpre. revert st.
  induction fuel as [|fuel IH]; intros st Hinv; cbn [scan]; [reflexivity|].
  destruct (offset st <? strLength + 1) eqn:E; [|reflexivity].
  apply Z.ltb_lt in E.
  assert (Hstep : scan_step buf1 sb st = scan_step buf2 sb st).
  { unfold scan_step. destruct (is_space (sb (offset st))); [|reflexivity].
    destruct Hinv as (Hls & Hwl & Hsum & Hoff).
    rewrite (printWord_agree buf1 buf2 (Z.to_nat (strLength + 1))); auto; lia. }
  pose proof (scan_step_inv buf1 sb strLength st (proj2 Hs) Hinv E) as Hinv1.
  rewrite <- Hstep.
  destruct (scan_step buf1 sb st) as [st1 out1]. simpl in Hinv1.
  rewrite IH by assumption. reflexivity.
Qed.

Lemma strncpy_agree (buf1 buf2 : WString.t) (n m : nat) :
  firstn n buf1 = firstn n buf2 -> (m <= n)%nat ->
  WString.strncpy buf1 m = WString.strncpy buf2 m.
Proof.
  intros Hpre Hm.
  rewrite <- (strncpy_firstn buf1), <- (strncpy_firstn buf2).
  replace m with (Nat.min m n) at 1 3 by lia.
  now rewrite <- !firstn_firstn, Hpre.
Qed.

(** X4: the pass reads [strLength], the length of the buffer modulo
    256, and, as long as [strLength] is not 255 (when the loop never
    stops), nothing beyond the character at index [strLength] can reach
    the display: two buffers of the same length that agree on their
    first [strLength + 1] characters give the same pass, whatever their
    other characters are.  A message of 256 characters or more is cut
    accordingly. *)
Theorem pass_ignores_beyond_strLength (fuel : nat) (stack : Z -> ascii)
    (buf1 buf2 : WString.t) :
  strLength_of buf1 <> 255 ->
  List.length buf1 = List.length buf2 ->
  firstn (Z.to_nat (strLength_of buf1 + 1)) buf1 =
  firstn (Z.to_nat (strLength_of buf1 + 1)) buf2 ->
  printStringToLCD fuel stack buf1 = printStringToLCD fuel stack buf2.
Proof.
  intros Hne Hlen Hpre.
  assert (Hs : strLength_of buf2 = strLength_of buf1).
  { unfold strLength_of, WString.length. now rewrite Hlen. }
  pose proof (strLength_of_range buf1) as Hr.
  assert (Hle : strLength_of buf1 <= 254) by lia.
  unfold printStringToLCD, scan_buffer. rewrite Hs.
  rewrite (scan_ext buf2 (stringBuffer_of stack buf2) (stringBuffer_of stack buf1));
    [| |simpl; lia].
  - rewrite (scan_agree buf1 buf2 (stringBuffer_of stack buf1) (strLength_of buf1)
               fuel initial Hlen (conj (proj1 Hr) Hle) Hpre
               (scan_inv_initial _ (proj1 Hr))).
    destruct (scan fuel buf2 (stringBuffer_of stack buf1) (strLength_of buf1) initial)
      as [[st out]|] eqn:Hscan; [|reflexivity].
    apply scan_final_inv in Hscan as ((Hls & Hwl & Hsum & _) & Hoff);
      [|lia|apply scan_inv_initial; lia].
    rewrite (printWord_agree buf1 buf2 (Z.to_nat (strLength_of buf1 + 1)));
      auto; lia.
  - intros i Hi. f_equal.
    assert (i = strLength_of buf1 \/ i = strLength_of buf1 - 1 \/
            0 <= i < strLength_of buf1 - 1) as [->|[->|Hlt]] by lia.
    + rewrite (stringBuffer_at_strLength stack buf1).
      rewrite <- Hs. apply stringBuffer_at_strLength.
    + rewrite (stringBuffer_terminator stack buf1) by lia.
      rewrite <- Hs. apply stringBuffer_terminator. lia.
    + rewrite !stringBuffer_strncpy by lia. rewrite Hs.
      now rewrite (strncpy_agree buf2 buf1 (Z.to_nat (strLength_of buf1 + 1))) by
        (auto; lia).
Qed.

Lemma pass_ignores_beyond_strLength_witness :
  printStringToLCD 3 zeros (WString.lit "a b" ++ repeat "x"%char 255) =
  printStringToLCD 3 zeros (WString.lit "a b" ++ repeat "y"%char 255).
Proof.
  apply (pass_ignores_beyond_strLength 3 zeros
           (WString.lit "a b" ++ repeat "x"%char 255)
           (WString.lit "a b" ++ repeat "y"%char 255));
    [vm_compute; discriminate | vm_compute; reflexivity ..].
Defined.

End Truncation.

(** ** Rows and pages *)

Section Pages.

Import LcdDemo.

Lemma paged_app (st : Z * Pass.Phase) (l1 l2 : list Cmd) :
  Pass.paged st (l1 ++ l2) =
  match Pass.paged st l1 with
  | Some st' => Pass.paged st' l2
  | None => None
  end.
Proof.
  revert st. induction l1 as [|c l1 IH]; intros st; simpl; [reflexivity|].
  destruct (Pass.page_step st c); [apply IH|reflexivity].
Qed.

(** A flush met on row 0 or 1 in phase [Ready] is read through, and
    ends in phase [Ready] on the row that [currRow] then names. *)
Lemma printWord_paged (buf : WString.t) (st : RenderState) :
  currRow st = 0 \/ currRow st = 1 ->
  Pass.paged (currRow st, Pass.Ready) (snd (printWord buf st)) =
    Some (currRow (fst (printWord buf st)), Pass.Ready) /\
  (currRow (fst (printWord buf st)) = 0 \/ currRow (fst (printWord buf st)) = 1).
Proof.
  intros [Hr|Hr]; unfold printWord; destruct (fits st); rewrite Hr; simpl; auto.
Qed.

Lemma scan_step_paged (buf : WString.t) (sb : Z -> ascii) (st : RenderState) :
  currRow st = 0 \/ currRow st = 1 ->
  Pass.paged (currRow st, Pass.Ready) (snd (scan_step buf sb st)) =
    Some (currRow (fst (scan_step buf sb st)), Pass.Ready) /\
  (currRow (fst (scan_step buf sb st)) = 0 \/
   currRow (fst (scan_step buf sb st)) = 1).
Proof.
  intros Hr. unfold scan_step. destruct (is_space (sb (offset st))).
  - pose proof (printWord_paged buf st Hr) as H.
    destruct (printWord buf st) as [st1 out]. exact H.
  - simpl. auto.
Qed.

Lemma scan_paged (buf : WString.t) (sb : Z -> ascii) (strLength : Z)
    (fuel : nat) (st st' : RenderState) (out : list Cmd) :
  currRow st = 0 \/ currRow st = 1 ->
  scan fuel buf sb strLength st = Some (st', out) ->
  Pass.paged (currRow st, Pass.Ready) out = Some (currRow st', Pass.Ready) /\
  (currRow st' = 0 \/ currRow st' = 1).
Proof.
  revert st st' out.
  induction fuel as [|fuel IH]; intros st st' out Hr; cbn [scan].
  - destruct (offset st <? strLength + 1); [discriminate|].
    intros [= <- <-]. auto.
  - destruct (offset st <? strLength + 1); [|intros [= <- <-]; auto].
    pose proof (scan_step_paged buf sb st Hr) as [Hp Hr1].
    destruct (scan_step buf sb st) as [st1 out1]. simpl in Hp, Hr1.
    destruct (scan fuel buf sb strLength st1) as [[st2 out2]|] eqn:Hscan;
      [|discriminate].
    intros [= <- <-]. apply (IH _ _ _ Hr1) in Hscan as [Hp2 Hr2].
    rewrite paged_app, Hp. auto.
Qed.

(** X5: the commands of a pass read as a sequence of flushes on
    alternating rows, starting on row 0: a flush is a bare write, or,
    on row 0, [setCursor(0, 1)] and a write, or, on row 1, the pause of
    [FRAME_DELAY], [clear], [setCursor(0, 0)] and a write.  So the pass
    issues no other command, the cursor is only ever sent to column 0
    of row 0 or 1, row 1 is always entered without a clear, and row 0
    is only ever entered again through the pause and the clear. *)
Theorem pass_alternates_rows (fuel : nat) (stack : Z -> ascii) (buf : WString.t)
    (out : list Cmd) :
  printStringToLCD fuel stack buf = Some out ->
  exists r, (r = 0 \/ r = 1) /\ Pass.paged (0, Pass.Ready) out = Some (r, Pass.Ready).
Proof.
  unfold printStringToLCD, scan_buffer.
  destruct (scan fuel buf (stringBuffer_of stack buf) (strLength_of buf) initial)
    as [[st o]|] eqn:Hscan; [|discriminate].
  intros [= <-].
  apply scan_paged in Hscan as [Hp Hr]; [|simpl; auto].
  destruct (printWord_paged buf st Hr) as [Hp' Hr'].
  exists (currRow (fst (printWord buf st))). split; [exact Hr'|].
  rewrite paged_app. simpl currRow in Hp. rewrite Hp. exact Hp'.
Qed.

Lemma pass_alternates_rows_witness :
  exists r, (r = 0 \/ r = 1) /\
    Pass.paged (0, Pass.Ready)
      [LcdPrint (WString.lit "aaaaaaaaaaaa"); LcdSetCursor 0 1;
       LcdPrint (WString.lit "bbbbbbbbbbbb"); Delay 3000; LcdClear;
       LcdSetCursor 0 0; LcdPrint (WString.lit "cccccccccccc")] =
    Some (r, Pass.Ready).
Proof.
  apply (pass_alternates_rows 40 zeros
           (WString.lit "aaaaaaaaaaaa bbbbbbbbbbbb cccccccccccc")).
  vm_compute. reflexivity.
Defined.

End Pages.

(** ** Messages that fit on the first row *)

Section Verbatim.

Import LcdDemo.

Lemma firstn_add {A : Type} (n m : nat) (l : list A) :
  firstn (n + m) l = firstn n l ++ firstn m (skipn n l).
Proof.
  revert l. induction n as [|n IH]; intros l; [reflexivity|].
  destruct l as [|x l]; simpl.
  - now rewrite firstn_nil.
  - now rewrite IH.
Qed.

(** Two adjacent slices make one slice. *)
Lemma slice_join {A : Type} (a b c : nat) (l : list A) :
  (a <= b <= c)%nat ->
  firstn (b - a) (skipn a l) ++ firstn (c - b) (skipn b l) =
  firstn (c - a) (skipn a l).
Proof.
  intros H. replace (c - a)%nat with ((b - a) + (c - b))%nat by lia.
  rewrite firstn_add, skipn_skipn. do 3 f_equal. lia.
Qed.

(** In a buffer without NUL bytes no slice is cut short. *)
Lemma c_str_slice (buf : WString.t) (n m : nat) :
  WString.nul_free buf = true ->
  WString.c_str (firstn n (skipn m buf)) = firstn n (skipn m buf).
Proof.
  intros Hnul. apply c_str_nul_free.
  apply nul_free_firstn_skipn. now apply nul_free_firstn_skipn.
Qed.

(** A slice with ordered bounds, as a piece of the list. *)
Lemma substring_slice (buf : WString.t) (l r : Z) :
  WString.nul_free buf = true ->
  0 <= l <= r -> r <= WString.length buf ->
  WString.substring buf l r =
  firstn (Z.to_nat r - Z.to_nat l) (skipn (Z.to_nat l) buf).
Proof.
  intros Hnul Hl Hr. unfold WString.substring, WString.length in *.
  destruct (r <? l) eqn:E; [apply Z.ltb_lt in E; lia|].
  destruct (Z.of_nat (List.length buf) <=? l) eqn:E1.
  - apply Z.leb_le in E1. rewrite skipn_all2 by lia. now rewrite firstn_nil.
  - destruct (Z.of_nat (List.length buf) <? r) eqn:E2;
      [apply Z.ltb_lt in E2; lia|].
    rewrite c_str_slice by assumption. f_equal. lia.
Qed.

(** A slice that runs past the end of the buffer is its tail. *)
Lemma substring_tail (buf : WString.t) (l r : Z) :
  WString.nul_free buf = true ->
  0 <= l -> WString.length buf <= r ->
  WString.substring buf l r = skipn (Z.to_nat l) buf.
Proof.
  intros Hnul Hl Hr. unfold WString.substring, WString.length in *.
  destruct (r <? l) eqn:E.
  - apply Z.ltb_lt in E.
    destruct (Z.of_nat (List.length buf) <=? r) eqn:E1;
      [|apply Z.leb_gt in E1; lia].
    now rewrite skipn_all2 by lia.
  - destruct (Z.of_nat (List.length buf) <=? l) eqn:E1.
    + apply Z.leb_le in E1. now rewrite skipn_all2 by lia.
    + apply Z.leb_gt in E1. rewrite c_str_slice by assumption.
      destruct (Z.of_nat (List.length buf) <? r) eqn:E2.
      * apply firstn_all2. rewrite length_skipn. lia.
      * apply Z.ltb_ge in E2. apply firstn_all2. rewrite length_skipn. lia.
Qed.

(** Over a buffer of at most 15 characters every flush of the loop
    fits: the loop only writes, and the runs it writes make up the
    buffer from the start of the word of its first turn to the start
    of the word of its last. *)
Lemma scan_verbatim (buf : WString.t) (sb : Z -> ascii) (fuel : nat)
    (st st' : RenderState) (out : list Cmd) :
  WString.nul_free buf = true ->
  WString.length buf <= 15 ->
  Pass.scan_inv (WString.length buf) st ->
  indexSpace st = lastSpace st ->
  scan fuel buf sb (WString.length buf) st = Some (st', out) ->
  lastSpace st <= lastSpace st' /\ indexSpace st' = lastSpace st' /\
  exists runs,
    out = map LcdPrint runs /\
    List.concat runs =
      firstn (Z.to_nat (lastSpace st') - Z.to_nat (lastSpace st))
             (skipn (Z.to_nat (lastSpace st)) buf).
Proof.
  intros Hnul Hlen. revert st st' out.
  assert (Hstop : forall st : RenderState,
            lastSpace st <= lastSpace st /\ indexSpace st = lastSpace st ->
            lastSpace st <= lastSpace st /\ indexSpace st = lastSpace st /\
            exists runs, @nil Cmd = map LcdPrint runs /\
              List.concat runs =
                firstn (Z.to_nat (lastSpace st) - Z.to_nat (lastSpace st))
                       (skipn (Z.to_nat (lastSpace st)) buf)).
  { intros st [H1 H2]. repeat split; try assumption.
    exists []. now rewrite Nat.sub_diag. }
  induction fuel as [|fuel IH]; intros st st' out Hinv Hidx; cbn [scan].
  - destruct (offset st <? WString.length buf + 1); [discriminate|].
    intros [= <- <-]. apply Hstop. split; [apply Z.le_refl|assumption].
  - destruct (offset st <? WString.length buf + 1) eqn:E;
      [|intros [= <- <-]; apply Hstop; split; [apply Z.le_refl|assumption]].
    apply Z.ltb_lt in E.
    assert (Hinv1 : Pass.scan_inv (WString.length buf) (fst (scan_step buf sb st)))
      by (apply scan_step_inv; (assumption || lia)).
    destruct Hinv as (Hls & Hwl & Hsum & Hoff).
    unfold scan_step in *.
    destruct (is_space (sb (offset st))).
    + assert (Hfit : fits st = true) by (apply fits_iff; unfold CHARS_PER_LINE; lia).
      unfold printWord in *. rewrite Hfit in *. cbn [fst snd] in *.
      destruct (scan fuel buf sb (WString.length buf) _) as [[st2 out2]|] eqn:Hscan;
        [|discriminate].
      intros [= <- <-].
      apply IH in Hscan; [|exact Hinv1|]; cbn [lastSpace indexSpace] in *.
      * destruct Hscan as (Hmono & Hidx2 & runs & -> & Hruns).
        split; [lia|]. split; [exact Hidx2|].
        exists (WString.substring buf (lastSpace st) (lastSpace st + wordLength st)
                :: runs).
        split; [reflexivity|]. cbn [List.concat]. rewrite Hruns.
        rewrite substring_slice by (assumption || lia). rewrite Hsum.
        apply slice_join. lia.
      * rewrite to_uint8_small by lia. lia.
    + cbn [fst snd] in *.
      destruct (scan fuel buf sb (WString.length buf) _) as [[st2 out2]|] eqn:Hscan;
        [|discriminate].
      intros [= <- <-].
      apply IH in Hscan; [|exact Hinv1|]; cbn [lastSpace indexSpace] in *;
        [exact Hscan | exact Hidx].
Qed.

(** X6: a message of at most 15 characters, none of them a NUL byte,
    is shown as it is on the first row: after the clear and the homing
    of the cursor, [loop] only writes runs, within [length + 1] turns,
    and these runs put one after the other are the message, whatever
    the uninitialised array held. *)
Theorem short_message_shown_verbatim (stack : Z -> ascii) (buf : WString.t) :
  WString.nul_free buf = true ->
  (List.length buf <= 15)%nat ->
  exists runs,
    loop (S (List.length buf)) stack buf =
      Some (LcdClear :: LcdSetCursor 0 0 :: map LcdPrint runs) /\
    List.concat runs = buf.
Proof.
  intros Hnul Hlen.
  destruct (printStringToLCD_short stack buf ltac:(lia)) as (st & out & Hscan & Hp & _).
  unfold loop. rewrite Hp.
  assert (Hs : strLength_of buf = WString.length buf).
  { rewrite strLength_of_short by lia. reflexivity. }
  unfold scan_buffer in Hscan. rewrite Hs in Hscan.
  assert (Hl15 : WString.length buf <= 15) by (unfold WString.length; lia).
  assert (Hl0 : 0 <= WString.length buf) by (unfold WString.length; lia).
  destruct (scan_final_inv buf (stringBuffer_of stack buf) (WString.length buf)
              (S (List.length buf)) initial st out ltac:(lia)
              (scan_inv_initial _ Hl0) Hscan)
    as ((Hls & Hwl & Hsum & _) & Hoff).
  apply scan_verbatim in Hscan as (_ & Hidx & runs & -> & Hruns);
    [| exact Hnul | exact Hl15
     | apply scan_inv_initial; unfold WString.length; lia | reflexivity].
  assert (Hfit : fits st = true) by (apply fits_iff; unfold CHARS_PER_LINE; lia).
  unfold printWord. rewrite Hfit. cbn [snd].
  exists (runs ++ [WString.substring buf (lastSpace st) (lastSpace st + wordLength st)]).
  split.
  - now rewrite map_app.
  - rewrite concat_app. cbn [List.concat]. rewrite app_nil_r, Hruns.
    rewrite substring_tail by (assumption || lia).
    cbn [lastSpace initial]. simpl Z.to_nat. rewrite Nat.sub_0_r.
    cbn [skipn]. apply firstn_skipn.
Qed.

Lemma short_message_shown_verbatim_witness :
  exists runs,
    loop 12 blanks (WString.lit "hello world") =
      Some (LcdClear :: LcdSetCursor 0 0 :: map LcdPrint runs) /\
    List.concat runs = WString.lit "hello world".
Proof.
  apply (short_message_shown_verbatim blanks (WString.lit "hello world")).
  - reflexivity.
  - simpl. lia.
Defined.

End Verbatim.

(** ** Words of at most 15 characters *)

Section Grid.

Import LcdDemo.

Lemma placements_app (cursor : Z * Z) (l1 l2 : list Cmd) :
  Display.placements cursor (l1 ++ l2) =
  Display.placements cursor l1 ++
  Display.placements (Pass.cursor_after cursor l1) l2.
Proof.
  revert cursor. induction l1 as [|c l1 IH]; intros cursor; [reflexivity|].
  destruct c as [ | | | | |t| | | |]; try (simpl; now rewrite IH).
  destruct t as [|x t].
  - cbn [app Display.placements Pass.cursor_after].
    replace (fst cursor + WString.length [], snd cursor) with cursor
      by (destruct cursor; unfold WString.length; simpl; f_equal; lia).
    apply IH.
  - cbn [app Display.placements Pass.cursor_after]. now rewrite IH.
Qed.

Lemma cursor_after_app (cursor : Z * Z) (l1 l2 : list Cmd) :
  Pass.cursor_after cursor (l1 ++ l2) =
  Pass.cursor_after (Pass.cursor_after cursor l1) l2.
Proof.
  revert cursor. induction l1 as [|c l1 IH]; intros cursor; [reflexivity|].
  destruct c; simpl; now rewrite ?IH.
Qed.

(** A slice is no longer than its range, and ends within the buffer. *)
Lemma substring_length (buf : WString.t) (l r : Z) :
  0 <= l <= r ->
  WString.length (WString.substring buf l r) <=
  Z.max 0 (Z.min r (WString.length buf) - l).
Proof.
  intros Hl. unfold WString.substring, WString.length.
  destruct (r <? l) eqn:E; [apply Z.ltb_lt in E; lia|].
  destruct (Z.of_nat (List.length buf) <=? l); [simpl; lia|].
  destruct (Z.of_nat (List.length buf) <? r) eqn:E2;
    [apply Z.ltb_lt in E2 | apply Z.ltb_ge in E2];
    match goal with
    | |- context [WString.c_str ?x] => pose proof (c_str_length x) as Hc
    end;
    rewrite length_firstn, length_skipn in Hc; lia.
Qed.

Lemma length_nonneg (s : WString.t) : 0 <= WString.length s.
Proof. unfold WString.length. lia. Qed.

(** A write that ends within the 16 columns is a placement within the
    grid, or none. *)
Lemma print_in_grid (cursor : Z * Z) (t : WString.t) :
  0 <= fst cursor -> fst cursor + WString.length t <= 16 ->
  snd cursor = 0 \/ snd cursor = 1 ->
  Forall Pass.in_grid (Display.placements cursor [LcdPrint t]).
Proof.
  intros Hc Hend Hrow. destruct t as [|x t]; simpl; constructor; [|constructor].
  unfold Pass.in_grid, CHARS_PER_LINE, NUM_LINES. simpl in *. lia.
Qed.

(** The commands of a flush that changes row: the pause and the clear,
    if any, do not matter for where the run is placed. *)
Lemma row_change_placed (cursor : Z * Z) (paging : list Cmd) (row : Z) (t : WString.t) :
  paging = [Delay FRAME_DELAY; LcdClear] \/ paging = [] ->
  Display.placements cursor (paging ++ [LcdSetCursor 0 row; LcdPrint t]) =
    Display.placements (0, row) [LcdPrint t] /\
  Pass.cursor_after cursor (paging ++ [LcdSetCursor 0 row; LcdPrint t]) =
    (WString.length t, row).
Proof. intros [-> | ->]; destruct t; split; reflexivity. Qed.

(** With words of at most 15 characters, fewer than 16 characters of
    the buffer lie between the start of the word being read and the
    turn of the loop. *)
Lemma word_gap (stack : Z -> ascii) (buf : WString.t) (ls o : Z) :
  WString.nul_free buf = true ->
  (List.length buf < 255)%nat -> Pass.short_words buf = true ->
  0 <= ls ->
  (forall i, ls < i < o -> is_space (stringBuffer_of stack buf i) = false) ->
  Z.min o (WString.length buf - 1) - ls - 1 <= 15.
Proof.
  intros Hnul Hlen Hshort Hls Hgap.
  destruct (Z_le_gt_dec (Z.min o (WString.length buf - 1) - ls - 1) 15) as [|Hbig];
    [assumption|exfalso].
  unfold WString.length in *. unfold Pass.short_words in Hshort.
  rewrite forallb_forall in Hshort.
  specialize (Hshort (Z.to_nat (ls + 1))).
  rewrite existsb_exists in Hshort.
  destruct Hshort as (j & Hj & Hsp); [apply in_seq; lia|].
  apply in_seq in Hj.
  assert (Hk : ls < ls + 1 + Z.of_nat j < o) by lia.
  apply Hgap in Hk.
  rewrite stringBuffer_copied in Hk
    by (try assumption; rewrite strLength_of_short by lia; lia).
  unfold WString.charAt in Hk.
  replace (Z.to_nat (ls + 1 + Z.of_nat j)) with (Z.to_nat (ls + 1) + j)%nat in Hk by lia.
  congruence.
Qed.

(** One flush: what it places lies within the grid, and the cursor
    stays on row [currRow], not to the right of [indexSpace]. *)
Lemma printWord_in_grid (stack : Z -> ascii) (buf : WString.t) (st : RenderState)
    (cursor : Z * Z) :
  WString.nul_free buf = true ->
  (List.length buf < 255)%nat -> Pass.short_words buf = true ->
  Pass.grid_inv (stringBuffer_of stack buf) (WString.length buf) st cursor ->
  Forall Pass.in_grid (Display.placements cursor (snd (printWord buf st))) /\
  0 <= fst (Pass.cursor_after cursor (snd (printWord buf st)))
    <= indexSpace (fst (printWord buf st)) /\
  snd (Pass.cursor_after cursor (snd (printWord buf st))) =
    currRow (fst (printWord buf st)) /\
  (currRow (fst (printWord buf st)) = 0 \/ currRow (fst (printWord buf st)) = 1).
Proof.
  intros Hnul Hlen Hshort ((Hls & Hwl & Hsum & Hoff) & Hc & Hrow & Hr01 & Hw0 & Hgap).
  pose proof (word_gap stack buf (lastSpace st) (offset st) Hnul Hlen Hshort
                (proj1 Hls) Hgap) as Hbound.
  assert (Hl : WString.length buf < 255) by (unfold WString.length; lia).
  unfold printWord. destruct (fits st) eqn:Hfit.
  - apply fits_iff in Hfit. unfold CHARS_PER_LINE in Hfit.
    pose proof (substring_length buf (lastSpace st) (lastSpace st + wordLength st)
                  ltac:(lia)) as Hlen_t.
    pose proof (length_nonneg (WString.substring buf (lastSpace st)
                                 (lastSpace st + wordLength st))) as Hpos.
    cbn [fst snd indexSpace currRow Pass.cursor_after].
    rewrite to_uint8_small by lia.
    repeat split; try lia; try assumption.
    apply print_in_grid; lia.
  - assert (Hnofit : 17 <= indexSpace st + wordLength st).
    { unfold fits, CHARS_PER_LINE in Hfit. apply Z.ltb_ge in Hfit. lia. }
    assert (Hwl1 : 1 <= wordLength st).
    { destruct (Z.eq_dec (wordLength st) 0) as [H0|]; [|lia].
      specialize (Hw0 H0). lia. }
    pose proof (substring_length buf (lastSpace st + 1) (lastSpace st + wordLength st)
                  ltac:(lia)) as Hlen_t.
    pose proof (length_nonneg (WString.substring buf (lastSpace st + 1)
                                 (lastSpace st + wordLength st))) as Hpos.
    cbn [fst snd indexSpace currRow].
    rewrite to_uint8_small by lia.
    set (row := if currRow st =? 1 then 0 else 1).
    assert (Hrow' : row = 0 \/ row = 1) by (subst row; destruct (currRow st =? 1); auto).
    destruct (row_change_placed cursor
                (if currRow st =? 1 then [Delay FRAME_DELAY; LcdClear] else [])
                row
                (WString.substring buf (lastSpace st + 1)
                   (lastSpace st + wordLength st))) as [Hp Hc'];
      [destruct (currRow st =? 1); auto|].
    rewrite Hp, Hc'. cbn [fst snd].
    repeat split; try lia; try assumption.
    apply print_in_grid; simpl; (lia || assumption).
Qed.

(** One turn of the loop keeps [grid_inv]. *)
Lemma scan_step_in_grid (stack : Z -> ascii) (buf : WString.t) (st : RenderState)
    (cursor : Z * Z) :
  WString.nul_free buf = true ->
  (List.length buf < 255)%nat -> Pass.short_words buf = true ->
  Pass.grid_inv (stringBuffer_of stack buf) (WString.length buf) st cursor ->
  offset st < WString.length buf + 1 ->
  Forall Pass.in_grid
    (Display.placements cursor (snd (scan_step buf (stringBuffer_of stack buf) st))) /\
  Pass.grid_inv (stringBuffer_of stack buf) (WString.length buf)
    (fst (scan_step buf (stringBuffer_of stack buf) st))
    (Pass.cursor_after cursor (snd (scan_step buf (stringBuffer_of stack buf) st))).
Proof.
  intros Hnul Hlen Hshort Hinv Hlt.
  assert (Hl : WString.length buf <= 254) by (unfold WString.length; lia).
  pose proof (scan_step_inv buf (stringBuffer_of stack buf) _ st Hl (proj1 Hinv) Hlt)
    as Hinv1.
  pose proof (printWord_in_grid stack buf st cursor Hnul Hlen Hshort Hinv) as Hflush.
  destruct Hinv as ((Hls & Hwl & Hsum & Hoff) & Hc & Hrow & Hr01 & Hw0 & Hgap).
  unfold Pass.grid_inv. unfold scan_step in *.
  destruct (is_space (stringBuffer_of stack buf (offset st))) eqn:Es.
  - pose proof (printWord_offset buf st) as Ho.
    pose proof (printWord_lastSpace buf st) as Hls1.
    pose proof (printWord_wordLength buf st) as Hw1.
    destruct (printWord buf st) as [st1 out]. cbn [fst snd] in *.
    destruct Hflush as (Hgrid & Hc1 & Hrow1 & Hr1).
    cbn [wordLength currRow lastSpace indexSpace offset] in *.
    split; [exact Hgrid|].
    split; [exact Hinv1|].
    repeat split; try lia; try assumption.
    + rewrite Hw1. rewrite to_uint8_small by lia. lia.
    + intros i. rewrite Hls1, Ho. rewrite to_uint8_small by lia. lia.
  - cbn [fst snd wordLength currRow lastSpace indexSpace offset
         Display.placements Pass.cursor_after] in *.
    split; [constructor|].
    split; [exact Hinv1|].
    repeat split; try lia; try assumption.
    + rewrite to_uint8_small by lia. lia.
    + intros i. rewrite to_uint8_small by lia. intros Hi.
      assert (i = offset st \/ lastSpace st < i < offset st) as [->|Hin] by lia;
        [exact Es | now apply Hgap].
Qed.

Lemma scan_in_grid (stack : Z -> ascii) (buf : WString.t) (fuel : nat)
    (st st' : RenderState) (cursor : Z * Z) (out : list Cmd) :
  WString.nul_free buf = true ->
  (List.length buf < 255)%nat -> Pass.short_words buf = true ->
  Pass.grid_inv (stringBuffer_of stack buf) (WString.length buf) st cursor ->
  scan fuel buf (stringBuffer_of stack buf) (WString.length buf) st = Some (st', out) ->
  Forall Pass.in_grid (Display.placements cursor out) /\
  Pass.grid_inv (stringBuffer_of stack buf) (WString.length buf) st'
    (Pass.cursor_after cursor out).
Proof.
  intros Hnul Hlen Hshort. revert st st' cursor out.
  induction fuel as [|fuel IH]; intros st st' cursor out Hinv; cbn [scan].
  - destruct (offset st <? WString.length buf + 1); [discriminate|].
    intros [= <- <-]. split; [constructor|exact Hinv].
  - destruct (offset st <? WString.length buf + 1) eqn:E;
      [|intros [= <- <-]; split; [constructor|exact Hinv]].
    apply Z.ltb_lt in E.
    pose proof (scan_step_in_grid stack buf st cursor Hnul Hlen Hshort Hinv E)
      as [Hgrid1 Hinv1].
    destruct (scan_step buf (stringBuffer_of stack buf) st) as [st1 out1].
    cbn [fst snd] in *.
    destruct (scan fuel buf (stringBuffer_of stack buf) (WString.length buf) st1)
      as [[st2 out2]|] eqn:Hscan; [|discriminate].
    intros [= <- <-].
    apply (IH _ _ _ _ Hinv1) in Hscan as [Hgrid2 Hinv2].
    rewrite placements_app, cursor_after_app.
    split; [apply Forall_app; split; assumption | exact Hinv2].
Qed.

(** X7: when no word of the buffer has more than 15 characters (and
    the buffer has fewer than 255, none of them a NUL byte), nothing is
    written outside the display: starting from the home position that [loop] sets, every
    run that the pass places lies on row 0 or 1 and within columns 0 to
    15, whatever the uninitialised array held. *)
Theorem short_words_stay_in_grid (stack : Z -> ascii) (buf : WString.t) :
  WString.nul_free buf = true ->
  (List.length buf < 255)%nat -> Pass.short_words buf = true ->
  exists out,
    printStringToLCD (S (List.length buf)) stack buf = Some out /\
    Forall Pass.in_grid (Display.placements (0, 0) out).
Proof.
  intros Hnul Hlen Hshort.
  destruct (printStringToLCD_short stack buf Hlen) as (st & out & Hscan & Hp & _).
  exists (out ++ snd (printWord buf st)). split; [exact Hp|].
  unfold scan_buffer in Hscan.
  rewrite strLength_of_short in Hscan by lia.
  change (Z.of_nat (List.length buf)) with (WString.length buf) in Hscan.
  apply (scan_in_grid stack buf _ _ _ (0, 0)) in Hscan as [Hgrid Hinv];
    try assumption.
  - rewrite placements_app. apply Forall_app. split; [exact Hgrid|].
    apply (printWord_in_grid stack buf st _ Hnul Hlen Hshort Hinv).
  - unfold Pass.grid_inv. split; [apply scan_inv_initial, length_nonneg|].
    simpl. repeat split; auto; lia.
Qed.

Lemma short_words_stay_in_grid_witness :
  exists out,
    printStringToLCD 66 blanks
      (WString.lit "this is a test of word wrap functionality for the lcd display now")
      = Some out /\
    Forall Pass.in_grid (Display.placements (0, 0) out).
Proof.
  apply (short_words_stay_in_grid blanks
           (WString.lit "this is a test of word wrap functionality for the lcd display now")).
  - reflexivity.
  - simpl. lia.
  - vm_compute. reflexivity.
Defined.

End Grid.

(** ** The uninitialised cell and buffers of one word *)

Section OneWord.

Import LcdDemo.

(** X8: the pass depends on what the array [stringBuffer] held before
    [toCharArray] only through the cell at index [strLength], and only
    through whether that cell holds a space. *)
Theorem pass_depends_on_one_cell (fuel : nat) (stack1 stack2 : Z -> ascii)
    (buf : WString.t) :
  is_space (stack1 (strLength_of buf)) = is_space (stack2 (strLength_of buf)) ->
  printStringToLCD fuel stack1 buf = printStringToLCD fuel stack2 buf.
Proof.
  intros H.
  rewrite (printStringToLCD_stack fuel stack1), (printStringToLCD_stack fuel stack2).
  now rewrite H.
Qed.

Lemma pass_depends_on_one_cell_witness :
  printStringToLCD 20 zeros (WString.lit "helloworldhello bye") =
  printStringToLCD 20 (fun i => if i =? 19 then "x"%char else " "%char)
    (WString.lit "helloworldhello bye").
Proof.
  apply (pass_depends_on_one_cell 20 zeros
           (fun i => if i =? 19 then "x"%char else " "%char)
           (WString.lit "helloworldhello bye")).
  reflexivity.
Defined.

(** Over cells that hold no space the loop only counts. *)
Lemma scan_no_space (buf : WString.t) (sb : Z -> ascii) (strLength : Z)
    (fuel : nat) (st : RenderState) :
  strLength <= 254 -> 0 <= offset st <= strLength + 1 ->
  0 <= wordLength st <= offset st ->
  (forall i, offset st <= i <= strLength -> is_space (sb i) = false) ->
  (Z.to_nat (strLength + 1 - offset st) <= fuel)%nat ->
  scan fuel buf sb strLength st =
  Some (mkState (wordLength st + (strLength + 1 - offset st)) (currRow st)
          (lastSpace st) (indexSpace st) (strLength + 1), []).
Proof.
  intros Hs. revert st.
  induction fuel as [|fuel IH]; intros st Hoff Hwl Hsb Hfuel; cbn [scan].
  - destruct (offset st <? strLength + 1) eqn:E; [apply Z.ltb_lt in E; lia|].
    apply Z.ltb_ge in E. destruct st as [wl r ls idx o]. simpl in *.
    do 2 f_equal. f_equal; lia.
  - destruct (offset st <? strLength + 1) eqn:E.
    + apply Z.ltb_lt in E. unfold scan_step. rewrite Hsb by lia.
      rewrite IH; cbn [wordLength currRow lastSpace indexSpace offset];
        rewrite ?to_uint8_small by lia; try lia.
      * do 2 f_equal. f_equal. lia.
      * intros i Hi. apply Hsb. lia.
    + apply Z.ltb_ge in E. destruct st as [wl r ls idx o]. simpl in *.
      do 2 f_equal. f_equal; lia.
Qed.

(** X9: a buffer of fewer than 255 characters without any space and
    without any NUL byte, that is a single word, is written whole on
    row 0 when it has at most 15 characters; when it has 16 or more, the pass moves to row 1 and
    writes the word from its second character on, so that the first
    character never reaches the display (the cell after the terminator
    is taken not to hold a space). *)
Theorem single_word_pass (stack : Z -> ascii) (buf : WString.t) :
  WString.nul_free buf = true ->
  (List.length buf < 255)%nat ->
  Forall (fun c => is_space c = false) buf ->
  is_space (stack (Z.of_nat (List.length buf))) = false ->
  printStringToLCD (S (List.length buf)) stack buf =
  Some (if (List.length buf <=? 15)%nat then [LcdPrint buf]
        else [LcdSetCursor 0 1; LcdPrint (tl buf)]).
Proof.
  intros Hnul Hlen Hword Hstack.
  assert (Hs : strLength_of buf = Z.of_nat (List.length buf))
    by (apply strLength_of_short; lia).
  unfold printStringToLCD, scan_buffer.
  rewrite (scan_no_space buf (stringBuffer_of stack buf) (strLength_of buf)
             (S (List.length buf)) initial); simpl offset; simpl wordLength; try lia.
  - cbn [app]. unfold printWord, fits, CHARS_PER_LINE.
    cbn [wordLength currRow lastSpace indexSpace offset initial snd].
    rewrite Hs.
    destruct (Nat.leb_spec (List.length buf) 15) as [Hle|Hgt].
    + destruct (0 + (0 + (Z.of_nat (List.length buf) + 1 - 0)) - 1 <? 16) eqn:E;
        [|apply Z.ltb_ge in E; lia].
      cbn [snd].
      rewrite substring_tail by (try assumption; unfold WString.length; lia).
      reflexivity.
    + destruct (0 + (0 + (Z.of_nat (List.length buf) + 1 - 0)) - 1 <? 16) eqn:E;
        [apply Z.ltb_lt in E; lia|].
      cbn [snd Z.eqb app].
      rewrite substring_tail by (try assumption; unfold WString.length; lia).
      destruct buf; reflexivity.
  - intros i Hi.
    assert (i = strLength_of buf \/ i = strLength_of buf - 1 \/
            0 <= i < strLength_of buf - 1) as [->|[->|Hlt]] by lia.
    + now rewrite stringBuffer_at_strLength, Hs.
    + rewrite stringBuffer_terminator by lia. reflexivity.
    + rewrite stringBuffer_copied by (assumption || lia). unfold WString.charAt.
      rewrite Forall_forall in Hword. apply Hword. apply nth_In. lia.
Qed.

Lemma single_word_pass_witness :
  printStringToLCD 19 zeros (WString.lit "functionalities123") =
  Some [LcdSetCursor 0 1; LcdPrint (WString.lit "unctionalities123")].
Proof.
  apply (single_word_pass zeros (WString.lit "functionalities123")).
  - reflexivity.
  - simpl. lia.
  - repeat constructor.
  - reflexivity.
Defined.

End OneWord.

(** ** What reaches the display *)

Section Content.

Import LcdDemo.

(** X10: every character that a pass writes on the display is a
    character of the buffer: what the uninitialised array held decides
    at most where a run is cut, and never shows. *)
Theorem pass_writes_buffer_characters (fuel : nat) (stack : Z -> ascii)
    (buf : WString.t) (out : list Cmd) :
  printStringToLCD fuel stack buf = Some out ->
  forall run c, In run (Display.writes out) -> In c run -> In c buf.
Proof.
  intros Hout run c Hrun Hc.
  pose proof (printStringToLCD_writes_Forall (fun x => In x buf) fuel stack buf out)
    as Hall.
  rewrite Forall_forall in Hall. specialize (Hall (fun x Hx => Hx) Hout).
  rewrite Forall_forall in Hall. specialize (Hall run Hrun).
  rewrite Forall_forall in Hall. exact (Hall c Hc).
Qed.

Lemma pass_writes_buffer_characters_witness :
  In "y"%char (WString.lit "helloworldhello bye").
Proof.
  apply (pass_writes_buffer_characters 20 blanks (WString.lit "helloworldhello bye")
           [LcdPrint (WString.lit "helloworldhello"); LcdSetCursor 0 1;
            LcdPrint (WString.lit "bye"); LcdPrint []]
           ltac:(vm_compute; reflexivity) (WString.lit "bye") "y"%char).
  - simpl. auto.
  - simpl. auto.
Defined.

End Content.

(** * Further properties of the Bluetooth demo *)

Section BluetoothSinks.

Import BluetoothDemo.

(** X11: [updateBluetooth] does nothing when no data is available; when
    a buffer is read, it always answers over Bluetooth, and it writes
    on the display if and only if the buffer is exactly [LFM] or
    [WFM], in which case the text on the display is the line sent
    back. *)
Theorem bluetooth_display_only_for_modes :
  updateBluetooth None = [] /\
  forall stringBuffer : WString.t,
    Sinks.bt_lines (updateBluetooth (Some stringBuffer)) <> [] /\
    (Sinks.lcd_texts (updateBluetooth (Some stringBuffer)) <> [] <->
     stringBuffer = LINE_FOLLOW_MODE \/ stringBuffer = WALL_FOLLOW_MODE) /\
    (forall t, In t (Sinks.lcd_texts (updateBluetooth (Some stringBuffer))) ->
               Sinks.bt_lines (updateBluetooth (Some stringBuffer)) = [t]).
Proof.
  split; [reflexivity|]. intros s. unfold updateBluetooth.
  destruct (WString.equals s LINE_FOLLOW_MODE) eqn:El.
  { apply equals_eq in El. simpl. repeat split; try discriminate; auto.
    intros t [<-|[]]. reflexivity. }
  destruct (WString.equals s WALL_FOLLOW_MODE) eqn:Ew.
  { apply equals_eq in Ew. simpl. repeat split; try discriminate; auto.
    intros t [<-|[]]. reflexivity. }
  assert (s <> LINE_FOLLOW_MODE) as Hl
    by (intros ->; rewrite equals_refl in El; discriminate).
  assert (s <> WALL_FOLLOW_MODE) as Hw
    by (intros ->; rewrite equals_refl in Ew; discriminate).
  destruct (WString.equals s BLUETOOTH_HELP); simpl;
    (repeat split; try discriminate; try tauto; intros t []).
Qed.

Lemma bluetooth_display_only_for_modes_witness :
  Sinks.lcd_texts (updateBluetooth (Some (WString.lit "WFM"))) <> [] /\
  Sinks.bt_lines (updateBluetooth (Some (WString.lit "WFM"))) =
    [WString.lit "Wall Follower Mode Enabled"].
Proof.
  destruct bluetooth_display_only_for_modes as [_ H].
  destruct (H (WString.lit "WFM")) as (_ & Hiff & Hsame). split.
  - apply (proj2 Hiff). right. reflexivity.
  - apply (Hsame (WString.lit "Wall Follower Mode Enabled")). simpl. auto.
Defined.

End BluetoothSinks.

(** * Where a fitting word is written *)

Section Cursor.

Import LcdDemo.





End Cursor.

Section FittingWord.

Import LcdDemo.




End FittingWord.
